(** * Asteroid Explorer: the seeded shape generator and the catalog glue

    A shallow embedding of [src/AsteroidExplorer.jsx].

    Numbers.  The integer code ([hashCode], [mulberry32]) runs on JavaScript's
    32-bit conversions; it is modelled on [Z] with every wrap-around written
    out.  The geometry code computes with JavaScript Numbers; they are modelled
    by real numbers (rounding to binary64, and to binary32 when a coordinate is
    stored in a buffer attribute, is not modelled).  Catalog numbers, which are
    only carried around and tested for truthiness, are rationals.

    Some statements on distances and positions leave room for that rounding:
    they keep the radius within 1e-30 and 1e30 and allow a relative error of
    one millionth, more than binary32 rounding takes.  A statement that rests
    on the additions of the code being exact keeps the integer seed below
    2^52 in size. *)

From Stdlib Require Import ZArith List String Ascii Bool Lia.
From Stdlib Require Import QArith.
From Stdlib Require Import Reals Lra Psatz.
Import ListNotations.

(* ------------------------------------------------------------------ *)
(** ** 32-bit integer conversions and operators of JavaScript *)

Module Int32.
Local Open Scope Z_scope.

Definition two32 : Z := 4294967296.

(** [x >>> 0]: the value modulo 2^32, in [0, 2^32). *)
Definition ToUint32 (z : Z) : Z := z mod two32.

(** The signed reading, in [-2^31, 2^31). *)
Definition ToInt32 (z : Z) : Z := (z + 2147483648) mod two32 - 2147483648.

(** [a ^ b] *)
Definition xor (a b : Z) : Z := Z.lxor (ToInt32 a) (ToInt32 b).

(** [a | b] *)
Definition or (a b : Z) : Z := Z.lor (ToInt32 a) (ToInt32 b).

(** [a >>> n] *)
Definition ushr (a n : Z) : Z := Z.shiftr (ToUint32 a) (n mod 32).

(** [Math.imul(a, b)] *)
Definition imul (a b : Z) : Z := ToInt32 (ToInt32 a * ToInt32 b).

End Int32.

(* ------------------------------------------------------------------ *)
(** ** The name-to-seed helper *)

Module Seed.
Local Open Scope Z_scope.

(** A JavaScript string is the sequence of its UTF-16 code units;
    [str.charCodeAt(i)] is the i-th of them. *)
Definition jsstring := list Z.

(** The code units of a string of the catalog (ASCII text). *)
Definition charCodes (s : string) : jsstring :=
  map (fun c => Z.of_N (N_of_ascii c)) (list_ascii_of_string s).

(** One turn of the loop of [hashCode]:
    [h ^= str.charCodeAt(i); h = Math.imul(h, 16777619);] *)
Definition hashCode_step (h c : Z) : Z :=
  Int32.imul (Int32.xor h c) 16777619.

(** [function hashCode(str = "")] *)
Definition hashCode (str : jsstring) : Z :=
  let h := Int32.ToUint32 2166136261 in
  Int32.ToUint32 (fold_left hashCode_step str h).

End Seed.

(* ------------------------------------------------------------------ *)
(** ** Closures with a mutable variable: [mulberry32] *)

Module Rng.
Local Open Scope Z_scope.

(** The variable [t] captured by each closure that [mulberry32] returns lives
    in a store of cells; a closure is the address of its cell. *)
Record Heap : Type := mkHeap { next : nat; cell : nat -> Z }.

Definition empty : Heap := mkHeap 0 (fun _ => 0).

Definition M (A : Type) : Type := Heap -> A * Heap.

Definition ret {A : Type} (a : A) : M A := fun h => (a, h).

Definition bind {A B : Type} (m : M A) (k : A -> M B) : M B :=
  fun h => let (a, h') := m h in k a h'.

Definition alloc (v : Z) : M nat :=
  fun h => (next h,
            mkHeap (S (next h)) (fun k => if Nat.eqb k (next h) then v else cell h k)).

Definition read (r : nat) : M Z := fun h => (cell h r, h).

Definition write (r : nat) (v : Z) : M unit :=
  fun h => (tt, mkHeap (next h) (fun k => if Nat.eqb k r then v else cell h k)).

(** [function mulberry32(seed) { let t = seed >>> 0; return function () {...} }] *)
Definition mulberry32 (seed : Z) : M nat := alloc (Int32.ToUint32 seed).

(** What one call computes from the value of [t] after [t += 0x6d2b79f5]:
    the 32-bit integer that the closure divides by 4294967296. *)
Definition scramble (t : Z) : Z :=
  let r := Int32.imul (Int32.xor t (Int32.ushr t 15)) (Int32.or 1 t) in
  let r := Int32.xor r (r + Int32.imul (Int32.xor r (Int32.ushr r 7)) (Int32.or 61 r)) in
  Int32.ToUint32 (Int32.xor r (Int32.ushr r 14)).

(** A call of the closure: it advances its own [t] and returns a number in
    [0, 1).  ([t] is a Number; it stays an exact integer for the first
    millions of calls, and no closure of this program is called twice.) *)
Definition call (rng : nat) : M R :=
  bind (read rng) (fun t =>
  let t := t + 1831565813 in
  bind (write rng t) (fun _ =>
  ret (IZR (scramble t) / 4294967296)%R)).

(** [for (let i = start; i < start + n; i++) body] over a loop state. *)
Fixpoint for_loop {S : Type} (n : nat) (i : nat) (body : nat -> S -> M S) (s : S) : M S :=
  match n with
  | O => ret s
  | Datatypes.S n' => bind (body i s) (for_loop n' (Datatypes.S i) body)
  end.

End Rng.

(* ------------------------------------------------------------------ *)
(** ** Buffer geometry and the shape generator *)

Module Geometry.
Import Rng.
Local Open Scope R_scope.

Record vec3 : Type := V3 { vx : R; vy : R; vz : R }.

Definition zero3 : vec3 := V3 0 0 0.

(** A buffer geometry: the [position] and [normal] attributes (one vector per
    vertex) and the triangle [index]. *)
Record BufferGeometry : Type := mkGeometry {
  position : list vec3;
  normal : list vec3;
  index : list nat
}.

Definition getXYZ (attr : list vec3) (i : nat) : vec3 := nth i attr zero3.

(** [attr.setXYZ(i, x, y, z)]; the loops below stay inside the attribute. *)
Fixpoint setXYZ (i : nat) (v : vec3) (attr : list vec3) : list vec3 :=
  match attr, i with
  | [], _ => []
  | _ :: rest, O => v :: rest
  | a :: rest, S i' => a :: setXYZ i' v rest
  end.

Definition sub3 (a b : vec3) : vec3 := V3 (vx a - vx b) (vy a - vy b) (vz a - vz b).
Definition add3 (a b : vec3) : vec3 := V3 (vx a + vx b) (vy a + vy b) (vz a + vz b).
Definition cross3 (a b : vec3) : vec3 :=
  V3 (vy a * vz b - vz a * vy b) (vz a * vx b - vx a * vz b) (vx a * vy b - vy a * vx b).
Definition multiplyScalar (s : R) (a : vec3) : vec3 := V3 (vx a * s) (vy a * s) (vz a * s).

(** Distance from the centre of the sphere, the origin. *)
Definition length3 (a : vec3) : R := sqrt (vx a * vx a + vy a * vy a + vz a * vz a).

(** [v.normalize()], that is [v.divideScalar(v.length() || 1)]. *)
Definition normalize (a : vec3) : vec3 :=
  let l := length3 a in
  multiplyScalar (1 / (if Req_dec_T l 0 then 1 else l)) a.

(** Modelled from the spec: the default angles of [THREE.SphereGeometry],
    a full turn of longitude and half a turn of colatitude. *)
Definition phiStart : R := 0.
Definition phiLength : R := PI * 2.
Definition thetaStart : R := 0.
Definition thetaLength : R := PI.

(** Modelled from the spec: the vertex of row [iy], column [ix] of the
    standard UV-sphere of [THREE.SphereGeometry]. *)
Definition sphere_vertex (radius : R) (w h : nat) (iy ix : nat) : vec3 :=
  let v := INR iy / INR h in
  let u := INR ix / INR w in
  V3 (- radius * cos (phiStart + u * phiLength) * sin (thetaStart + v * thetaLength))
     (radius * cos (thetaStart + v * thetaLength))
     (radius * sin (phiStart + u * phiLength) * sin (thetaStart + v * thetaLength)).

(** Modelled from the spec: the vertices of [THREE.SphereGeometry], row by
    row from the pole [iy = 0], each row of [w + 1] vertices. *)
Definition sphere_vertices (radius : R) (w h : nat) : list vec3 :=
  flat_map (fun iy => map (sphere_vertex radius w h iy) (seq 0 (S w))) (seq 0 (S h)).

(** Modelled from the spec: the triangles of one grid cell of
    [THREE.SphereGeometry], two of them, one in the rows at the poles. *)
Definition sphere_cell (w h : nat) (iy ix : nat) : list nat :=
  let a := (iy * S w + (ix + 1))%nat in
  let b := (iy * S w + ix)%nat in
  let c := (S iy * S w + ix)%nat in
  let d := (S iy * S w + (ix + 1))%nat in
  (if Nat.eqb iy 0 then [] else [a; b; d]) ++
  (if Nat.eqb iy (h - 1) then [] else [b; c; d]).

(** Modelled from the spec: the index of [THREE.SphereGeometry]. *)
Definition sphere_indices (w h : nat) : list nat :=
  flat_map (fun iy => flat_map (sphere_cell w h iy) (seq 0 w)) (seq 0 h).

(** Modelled from the spec: [THREE.SphereGeometry] belongs to the three.js
    library, not to this repository.  This is the standard UV-sphere of the
    given radius that the library builds: at least 3 by 2 divisions, rows
    [iy = 0 .. heightSegments] of [widthSegments + 1] vertices each, and every
    vertex with its outward unit normal. *)
Definition SphereGeometry (radius : R) (widthSegments heightSegments : Z) : BufferGeometry :=
  let w := Z.to_nat (Z.max 3 widthSegments) in
  let h := Z.to_nat (Z.max 2 heightSegments) in
  let vertices := sphere_vertices radius w h in
  mkGeometry vertices (map normalize vertices) (sphere_indices w h).

(** Modelled from the spec: the loop of [computeVertexNormals] of three.js
    over the triangles; each adds its face normal to its three corners. *)
Fixpoint accumulate_faces (pos : list vec3) (idx : list nat) (acc : list vec3) : list vec3 :=
  match idx with
  | vA :: vB :: vC :: rest =>
      let pA := getXYZ pos vA in
      let pB := getXYZ pos vB in
      let pC := getXYZ pos vC in
      let cb := cross3 (sub3 pC pB) (sub3 pA pB) in
      let acc := setXYZ vA (add3 (getXYZ acc vA) cb) acc in
      let acc := setXYZ vB (add3 (getXYZ acc vB) cb) acc in
      let acc := setXYZ vC (add3 (getXYZ acc vC) cb) acc in
      accumulate_faces pos rest acc
  | _ => acc
  end.

(** Modelled from the spec: [geom.computeVertexNormals()] is three.js's too.
    The normals are recomputed from the final positions: the face normals
    summed per vertex, and the sums normalised. *)
Definition computeVertexNormals (g : BufferGeometry) : BufferGeometry :=
  let zeros := map (fun _ => zero3) (position g) in
  mkGeometry (position g)
             (map normalize (accumulate_faces (position g) (index g) zeros))
             (index g).

(** The integer that a bitwise operator reads off a Number: the number
    truncated towards zero, then wrapped to 32 bits. *)
Definition truncate (x : R) : Z :=
  if Rle_dec 0 x then Int_part x else (- Int_part (- x))%Z.

Definition ToInt32 (x : R) : Z := Int32.ToInt32 (truncate x).

(** [Math.abs(Math.sin((x * 73856093) ^ (y * 19349663) ^ (z * 83492791))) * 100000] *)
Definition vertex_hash (p : vec3) : R :=
  Rabs (sin (IZR (Int32.xor (Int32.xor (ToInt32 (vx p * 73856093))
                                       (ToInt32 (vy p * 19349663)))
                            (ToInt32 (vz p * 83492791))))) * 100000.

(** [0.6 + 0.4 * Math.abs(nx + ny + nz)] *)
Definition weight (n : vec3) : R := 0.6 + 0.4 * Rabs (vx n + vy n + vz n).

(** [1 + noise * intensity * (0.6 + 0.4 * Math.abs(nx + ny + nz))] *)
Definition displacement (noise intensity : R) (n : vec3) : R :=
  1 + noise * intensity * weight n.

(** One turn of the loop over the vertices: the body of
    [for (let i = 0; i < pos.count; i++)], updating [pos] in place. *)
Definition displace_vertex (normal : list vec3) (intensity : R) (seed : Z)
    (i : nat) (pos : list vec3) : M (list vec3) :=
  let n := getXYZ normal i in
  let p := getXYZ pos i in
  let hash := vertex_hash p in
  bind (mulberry32 (Int_part hash + seed)) (fun localRng =>
  bind (call localRng) (fun u =>
  let noise := u * 2 - 1 in
  let d := displacement noise intensity n in
  ret (setXYZ i (V3 (vx p * d) (vy p * d) (vz p * d)) pos))).

(** [function createBumpyGeometry(radius = 1, segments = 128, intensity = 0.08, seed = 42)] *)
Definition createBumpyGeometry (radius : R) (segments : Z) (intensity : R) (seed : Z)
    : M BufferGeometry :=
  let geom := SphereGeometry radius (Z.max 32 segments) (Z.max 16 (segments / 2)) in
  let pos := position geom in
  let normal := normal geom in
  bind (mulberry32 seed) (fun rng =>
  bind (for_loop (List.length pos) 0 (displace_vertex normal intensity seed) pos) (fun pos =>
  ret (computeVertexNormals (mkGeometry pos normal (index geom))))).

(** The intensity that [AsteroidMesh] passes:
    [Math.max(0.02, Math.min(0.12, 0.06))]. *)
Definition mesh_intensity : R := Rmax 0.02 (Rmin 0.12 0.06).

(** The geometry of [AsteroidMesh]:
    [createBumpyGeometry(1, 128, Math.max(0.02, Math.min(0.12, 0.06)), hashCode(name))]. *)
Definition AsteroidMesh_geom (name : Seed.jsstring) : M BufferGeometry :=
  createBumpyGeometry 1 128 mesh_intensity (Seed.hashCode name).

(** The clamp that the specification places inside the generator:
    the intensity brought into [0.02, 0.12]. *)
Definition clamp_intensity (intensity : R) : R := Rmax 0.02 (Rmin 0.12 intensity).

End Geometry.

(* ------------------------------------------------------------------ *)
(** ** Strings of the catalog *)

Module Str.
Local Open Scope string_scope.

(** Catalog text is modelled by Rocq strings, one character per code unit;
    case mapping and white space are those of ASCII. *)
Definition lower_char (c : ascii) : ascii :=
  let n := nat_of_ascii c in
  if andb (Nat.leb 65 n) (Nat.leb n 90) then ascii_of_nat (n + 32) else c.

(** [s.toLowerCase()] *)
Fixpoint toLowerCase (s : string) : string :=
  match s with
  | EmptyString => EmptyString
  | String c s' => String (lower_char c) (toLowerCase s')
  end.

Definition is_space (c : ascii) : bool :=
  let n := nat_of_ascii c in
  orb (andb (Nat.leb 9 n) (Nat.leb n 13)) (Nat.eqb n 32).

Fixpoint trimStart (s : string) : string :=
  match s with
  | EmptyString => EmptyString
  | String c s' => if is_space c then trimStart s' else s
  end.

(** The string without its trailing white space. *)
Fixpoint trimEnd (s : string) : string :=
  match s with
  | EmptyString => EmptyString
  | String c s' =>
      match trimEnd s' with
      | EmptyString => if is_space c then EmptyString else String c EmptyString
      | t => String c t
      end
  end.

(** [s.trim()] *)
Definition trim (s : string) : string := trimEnd (trimStart s).

(** [s.includes(q)]: [q] occurs in [s] at some offset. *)
Fixpoint includes (s q : string) : bool :=
  if prefix q s then true
  else match s with
       | EmptyString => false
       | String _ s' => includes s' q
       end.

(** Truthiness of a string: only the empty string is falsy. *)
Definition nonempty (s : string) : bool := negb (String.eqb s "").

End Str.

(* ------------------------------------------------------------------ *)
(** ** The catalog, its refresh, the detail enrichment and the search *)

Module Catalog.
Local Open Scope string_scope.

(** The values a field read from JSON may hold. *)
Inductive jsval : Type :=
| JUndefined
| JNull
| JNum (q : Q)
| JStr (s : string).

Definition truthy (v : jsval) : bool :=
  match v with
  | JUndefined | JNull => false
  | JNum q => negb (Qeq_bool q 0)
  | JStr s => Str.nonempty s
  end.

(** [a || b] *)
Definition or_else (a b : jsval) : jsval := if truthy a then a else b.

(** [a || b] on strings. *)
Definition or_str (a b : string) : string := if Str.nonempty a then a else b.

Record event : Type := mkEvent { date : string; event_text : string }.

(** [json.phys], of which the code reads three properties; a property that
    the payload lacks reads as [JUndefined]. *)
Record phys_t : Type := mkPhys { diameter : jsval; H : jsval; albedo : jsval }.

Definition no_phys : phys_t := mkPhys JUndefined JUndefined JUndefined.

(** The payload of the small-body database. *)
Record sbdb_json : Type := mkSbdb { phys : option phys_t }.

(** A catalog entry; [sbdb_raw] is the property that the enrichment adds
    ([None]: the object has no such property). *)
Record entry : Type := mkEntry {
  id : string;
  name : string;
  designation : string;
  diameter_km : jsval;
  absolute_magnitude_h : jsval;
  is_potentially_hazardous : bool;
  discovery_date : option string;
  discoverer : option string;
  summary : string;
  notable_events : list event;
  sbdb_raw : option sbdb_json
}.

Definition sample (id name designation : string) (d h : jsval) (pha : bool)
    (discovered discoverer summary : string) (events : list event) : entry :=
  mkEntry id name designation d h pha (Some discovered) (Some discoverer) summary events None.

Definition SAMPLE_ASTEROIDS : list entry :=
  [ sample "99942" "99942 Apophis" "99942 Apophis" (JNum 0.340) (JNum 19.7) true
      "2004-06-19" "K. A. Williams / R. S. McMillan (LINEAR)"
      "Apophis is a near-Earth asteroid known for its close approach in April 2029; modern orbit determinations rule out impacts for the foreseeable future."
      [ mkEvent "2004-06-19" "Discovery (LINEAR)";
        mkEvent "2029-04-13" "Very close Earth approach (inside geostationary orbit distance)" ];
    sample "152830" "152830 Dinkinesh" "152830 Dinkinesh & Selam" (JNum 0.1) (JNum 21.5) false
      "2006-08-27" "Spacewatch"
      "Dinkinesh is a small main-belt asteroid visited by NASA's Lucy mission; it has a small companion named Selam."
      [ mkEvent "2023-10-XX" "Lucy flyby (imaging and characterization)" ];
    sample "25143" "25143 Itokawa" "25143 Itokawa" (JNum 0.535) (JNum 19.2) false
      "1998-09-26" "H. Abe"
      "Itokawa is a rubble-pile asteroid visited by JAXA's Hayabusa mission; samples returned to Earth in 2010."
      [ mkEvent "1998-09-26" "Discovery (H. Abe)";
        mkEvent "2005-09-12" "Hayabusa arrival";
        mkEvent "2010-06-13" "Sample return to Earth" ];
    sample "16" "16 Psyche" "16 Psyche" (JNum 226) (JNum 6.2) false
      "1852-03-17" "Annibale de Gasparis"
      "Psyche is a large, metal-rich asteroid and target of NASA's Psyche mission to study planetary cores and differentiation."
      [ mkEvent "2020-10-13" "Psyche mission launch (target selected earlier)" ];
    sample "2024YR4" "2024 YR4" "2024 YR4" JNull JNull false
      "2024-12-XX" "Survey"
      "Recently-designated near-Earth object — check JPL SBDB for latest parameters."
      [ mkEvent "2024-12-01" "Discovery (survey)" ];
    sample "52246" "52246 Donaldjohanson" "52246 Donaldjohanson" (JNum 0.005) (JNum 18.9) false
      "1987-10-07" "Observatory"
      "Main-belt asteroid named after paleoanthropologist Donald Johanson."
      [ mkEvent "1987-10-07" "Discovery" ];
    sample "Didymos" "65803 Didymos & Dimorphos" "65803 Didymos" (JNum 0.780) (JNum 18.3) false
      "1996-04-11" "ROAST survey"
      "Binary near-Earth system; Dimorphos was the target of NASA's DART impact demonstration in 2022."
      [ mkEvent "1996-04-11" "Discovery of Didymos";
        mkEvent "2022-09-26" "DART kinetic impact on Dimorphos" ];
    sample "243" "243 Ida & Dactyl" "243 Ida" (JNum 31.8) (JNum 10.5) false
      "1884-09-29" "J. Palisa"
      "Ida is a main-belt asteroid and host to Dactyl, the first discovered asteroid moon (discovered in Galileo images)."
      [ mkEvent "1993-08-28" "Galileo imaging and discovery of moon Dactyl" ];
    sample "433" "433 Eros" "433 Eros" (JNum 16.84) (JNum 10.4) false
      "1898-08-13" "G. Witt"
      "Visited by NASA's NEAR Shoemaker mission which mapped Eros and landed in 2001."
      [ mkEvent "1999-02-14" "NEAR Shoemaker arrival & mapping (1999–2001)" ];
    sample "4" "4 Vesta" "4 Vesta" (JNum 525.4) (JNum 3.2) false
      "1807-03-29" "H. Olbers"
      "One of the largest objects in the asteroid belt; Dawn mission mapped its geology and linked HED meteorites to Vesta."
      [ mkEvent "2011-07-16" "Dawn orbit & mapping (2011–2012)" ] ].

(** What [n.close_approach_data[0]?.close_approach_date] may read: nothing
    (the element or the property is missing), null, or a text. *)
Inductive approach_date : Type :=
| DateMissing
| DateNull
| DateText (s : string).

(** An object of [json.near_earth_objects], as far as [fetchNeos] reads it.
    An option is [None] where the property, or an object on the way to it, is
    missing or null; [close_approach_data] lists the [close_approach_date] of
    each of its elements, and is empty when the property is missing. *)
Record neo : Type := mkNeo {
  neo_id : string;
  neo_name : string;
  neo_designation : option string;
  estimated_diameter_max : option Q;
  neo_absolute_magnitude_h : jsval;
  is_potentially_hazardous_asteroid : bool;
  first_observation_date : option string;
  close_approach_data : list approach_date
}.

(** The object that [fetchNeos] builds from one listed object. *)
Definition neo_entry (n : neo) : entry :=
  mkEntry (neo_id n) (neo_name n)
    (match neo_designation n with
     | Some d => or_str d (neo_name n)
     | None => neo_name n
     end)
    (match estimated_diameter_max n with
     | Some m => JNum (m / 1000)
     | None => JNull
     end)
    (neo_absolute_magnitude_h n)
    (is_potentially_hazardous_asteroid n)
    (match first_observation_date n with
     | Some d => if Str.nonempty d then Some d else None
     | None => None
     end)
    None
    (match close_approach_data n with
     | d :: _ =>
         "Closest approach (sample): " ++
         match d with
         | DateText s => s
         | DateNull => "null"
         | DateMissing => "undefined"
         end
     | [] => "Near-Earth object"
     end)
    []
    None.

(** [[...SAMPLE_ASTEROIDS, ...items.filter((it) => !SAMPLE_ASTEROIDS.find((s) => s.id === it.id))]] *)
Definition merge_into (catalog items : list entry) : list entry :=
  catalog ++
  filter (fun it =>
            match find (fun s => String.eqb (id s) (id it)) catalog with
            | Some _ => false
            | None => true
            end) items.

Definition merge (items : list entry) : list entry := merge_into SAMPLE_ASTEROIDS items.

(** [(prev) => merged.find((m) => m.id === prev.id) || merged[0]];
    [None] is JavaScript's undefined. *)
Definition keep_selection (merged : list entry) (prev : entry) : option entry :=
  match find (fun m => String.eqb (id m) (id prev)) merged with
  | Some m => Some m
  | None => hd_error merged
  end.

(** The state of the component [AsteroidExplorer]. *)
Record State : Type := mkState {
  asteroids : list entry;
  selected : option entry;
  loading : bool;
  textureUrl : option string;
  query : string
}.

Definition initial : State :=
  mkState SAMPLE_ASTEROIDS (hd_error SAMPLE_ASTEROIDS) false None "".

Definition setLoading (b : bool) (st : State) : State :=
  mkState (asteroids st) (selected st) b (textureUrl st) (query st).

Definition setAsteroids (l : list entry) (st : State) : State :=
  mkState l (selected st) (loading st) (textureUrl st) (query st).

(** [setSelected] with an updater; the state of this program always holds a
    selection, on which alone the updater of [fetchNeos] is defined. *)
Definition updateSelected (f : entry -> option entry) (st : State) : State :=
  mkState (asteroids st)
          (match selected st with Some prev => f prev | None => None end)
          (loading st) (textureUrl st) (query st).

Definition setSelected (e : entry) (st : State) : State :=
  mkState (asteroids st) (Some e) (loading st) (textureUrl st) (query st).

(** What a fetch came back with: any failure (network, status, parsing), or
    the parsed payload. *)
Inductive response (A : Type) : Type :=
| Failed
| Succeeded (payload : A).
Arguments Failed {A}.
Arguments Succeeded {A} payload.

(** [fetchNeos], from the answer of the listing endpoint to the new state. *)
Definition fetchNeos (r : response (list neo)) (st : State) : State :=
  let st := setLoading true st in
  match r with
  | Failed => setLoading false st
  | Succeeded near_earth_objects =>
      let items := map neo_entry (firstn 12 near_earth_objects) in
      match items with
      | [] => setLoading false st
      | _ =>
          let merged := merge items in
          setLoading false (updateSelected (keep_selection merged) (setAsteroids merged st))
      end
  end.

Section Details.

(** The text of a Number in a template literal. *)
Variable Number_toString : Q -> string.

Definition ToString (v : jsval) : string :=
  match v with
  | JUndefined => "undefined"
  | JNull => "null"
  | JNum q => Number_toString q
  | JStr s => s
  end.

(** The object [merged] of [fetchSBDBDetails].  [notable_events] is an array
    in every entry, so [obj.notable_events || []] is [obj.notable_events]. *)
Definition enrich (obj : entry) (json : sbdb_json) : entry :=
  let phys := match phys json with Some p => p | None => no_phys end in
  mkEntry (id obj) (name obj) (designation obj)
    (or_else (diameter phys) (diameter_km obj))
    (or_else (H phys) (absolute_magnitude_h obj))
    (is_potentially_hazardous obj)
    (discovery_date obj)
    (discoverer obj)
    (or_str (if truthy (albedo phys)
             then name obj ++ " — albedo: " ++ ToString (albedo phys)
             else summary obj)
            (summary obj))
    (notable_events obj)
    (Some json).

(** [fetchSBDBDetails(obj)], from the answer of the database to the new state. *)
Definition fetchSBDBDetails (obj : entry) (r : response sbdb_json) (st : State) : State :=
  let st := setLoading true st in
  match r with
  | Succeeded json => setLoading false (setSelected (enrich obj json) st)
  | Failed => setLoading false (setSelected obj st)
  end.

End Details.

(** The predicate of the filter of [filtered], on the query already trimmed
    and lowered. *)
Definition matches (q : string) (a : entry) : bool :=
  orb (orb (andb (Str.nonempty (name a)) (Str.includes (Str.toLowerCase (name a)) q))
           (andb (Str.nonempty (designation a))
                 (Str.includes (Str.toLowerCase (designation a)) q)))
      (andb (Str.nonempty (id a)) (Str.includes (Str.toLowerCase (id a)) q)).

(** A listed object that carries the id of Eros under another name. *)
Definition eros_again : neo :=
  mkNeo "433" "433 Eros (A898 PA)" None (Some 16840%Q) (JNum 10.4) false None [].

(** The memo [filtered]. *)
Definition filtered (asteroids : list entry) (query : string) : list entry :=
  let q := Str.toLowerCase (Str.trim query) in
  if negb (Str.nonempty q) then asteroids else filter (matches q) asteroids.

End Catalog.

(* ------------------------------------------------------------------ *)
(** ** What the loops compute, in closed form *)

Module Closed.
Import Geometry.
Local Open Scope R_scope.

(** The noise of a vertex: the first number of the generator seeded with
    [Math.floor(hash) + seed], brought to [-1, 1). *)
Definition local_noise (seed : Z) (p : vec3) : R :=
  let t := (Int32.ToUint32 (Int_part (vertex_hash p) + seed) + 1831565813)%Z in
  IZR (Rng.scramble t) / 4294967296 * 2 - 1.

(** The vertex [p] with normal [n], after its turn of the loop. *)
Definition displaced (intensity : R) (seed : Z) (n p : vec3) : vec3 :=
  let d := displacement (local_noise seed p) intensity n in
  V3 (vx p * d) (vy p * d) (vz p * d).

(** The loop over an attribute from index [k] on. *)
Fixpoint map_from {A : Type} (k : nat) (g : nat -> A -> A) (l : list A) : list A :=
  match l with
  | [] => []
  | a :: rest => g k a :: map_from (S k) g rest
  end.

(** The tessellation that [createBumpyGeometry] asks for. *)
Definition widthSegments (segments : Z) : nat := Z.to_nat (Z.max 3 (Z.max 32 segments)).
Definition heightSegments (segments : Z) : nat := Z.to_nat (Z.max 2 (Z.max 16 (segments / 2))).

(** The square of the distance from the centre. *)
Definition norm2 (a : vec3) : R := vx a * vx a + vy a * vy a + vz a * vz a.

(** The room left, in the statements that hold of stored coordinates, for
    their rounding to binary32: one millionth, relative to the radius. *)
Definition tolerance : R := 1e-6.

(** The largest weight of a unit normal. *)
Definition max_weight : R := 0.6 + 0.4 * sqrt 3.

(** The search of [includes], as a proposition. *)
Definition occurs_in (q s : string) : Prop :=
  exists pre post : string, s = (pre ++ q ++ post)%string.

End Closed.

(* ------------------------------------------------------------------ *)
(** ** Using a generator more than once *)

Module Stream.
Import Rng.

(** [n] calls of the closure [rng] in a row, and what they return. *)
Fixpoint calls (n : nat) (rng : nat) : M (list R) :=
  match n with
  | O => ret []
  | S n' => bind (call rng) (fun u => bind (calls n' rng) (fun us => ret (u :: us)))
  end.

End Stream.

(* ------------------------------------------------------------------ *)
(** ** The hash of [hashCode] in unsigned arithmetic *)

Module Fnv.

(** The 32-bit FNV-1a hash: from the offset basis, each unit is xored in and
    the result multiplied by the prime, modulo 2^32. *)
Definition fnv_step (h c : Z) : Z := (Z.lxor h c * 16777619) mod 4294967296.

Definition fnv1a (str : list Z) : Z := fold_left fnv_step str 2166136261%Z.

End Fnv.

(* ------------------------------------------------------------------ *)
(** ** The scene around the asteroid *)

Module Scene.
Import Geometry Catalog.
Local Open Scope R_scope.

(** The orbit ring: the body of
    [for (let i = 0; i < segments; i++) { const t = (i / segments) * Math.PI * 2;
    pts.push(new THREE.Vector3(Math.cos(t) * a, 0, Math.sin(t) * b)); }],
    with [n] turns left to run from index [i]. *)
Fixpoint orbit_loop (a b : R) (segments : nat) (n i : nat) (pts : list vec3) : list vec3 :=
  match n with
  | O => pts
  | S n' =>
      let t := INR i / INR segments * PI * 2 in
      orbit_loop a b segments n' (S i) (pts ++ [V3 (cos t * a) 0 (sin t * b)])
  end.

(** The points of [OrbitRing({ a, b, segments })]. *)
Definition OrbitRing_points (a b : R) (segments : nat) : list vec3 :=
  orbit_loop a b segments segments 0 [].

(** [selected?.name || "asteroid"], the name that the viewer and the snapshot
    use. *)
Definition display_name (selected : option entry) : string :=
  match selected with
  | Some e => or_str (name e) "asteroid"
  | None => "asteroid"
  end.

(** The geometry of the [AsteroidMesh] of the viewer. *)
Definition viewer_geom (selected : option entry) : Rng.M BufferGeometry :=
  AsteroidMesh_geom (Seed.charCodes (display_name selected)).

(** [s.replace(/\s+/g, "_")]: every maximal run of white space becomes one
    underscore; [in_run] tells that the character before was white space. *)
Fixpoint replace_spaces (in_run : bool) (s : string) : string :=
  match s with
  | EmptyString => EmptyString
  | String c s' =>
      if Str.is_space c
      then if in_run then replace_spaces true s'
           else String "_"%char (replace_spaces true s')
      else String c (replace_spaces false s')
  end.


(** The file name of the snapshot:
    [`${(selected?.name || "asteroid").replace(/\s+/g, "_")}_snapshot.png`]. *)
Definition snapshot_name (selected : option entry) : string :=
  (replace_spaces false (display_name selected) ++ "_snapshot.png")%string.

End Scene.

(* ------------------------------------------------------------------ *)
(** ** The component as a machine *)

Module App.
Import Catalog.

(** [setQuery] and [setTextureUrl]. *)
Definition setQuery (q : string) (st : State) : State :=
  mkState (asteroids st) (selected st) (loading st) (textureUrl st) q.

Definition setTextureUrl (u : option string) (st : State) : State :=
  mkState (asteroids st) (selected st) (loading st) u (query st).

(** What can happen to the component: the answer of the listing endpoint
    arrives, the answer of the database for a clicked entry arrives, the
    search box is edited, a texture is chosen or cleared. *)
Inductive event : Type :=
| Refreshed (r : response (list neo))
| Selected (obj : entry) (r : response sbdb_json)
| Typed (q : string)
| Textured (u : option string).

(** A state with a selection, whose catalog is the embedded one followed by
    at most twelve fetched entries, none of which holds a payload of the
    database. *)
Definition sound (st : State) : Prop :=
  selected st <> None /\
  (exists added : list entry,
      asteroids st = SAMPLE_ASTEROIDS ++ added /\ (List.length added <= 12)%nat) /\
  Forall (fun e => sbdb_raw e = None) (asteroids st).

Section Handle.

Variable Number_toString : Q -> string.

Definition handle (st : State) (e : event) : State :=
  match e with
  | Refreshed r => fetchNeos r st
  | Selected obj r => fetchSBDBDetails Number_toString obj r st
  | Typed q => setQuery q st
  | Textured u => setTextureUrl u st
  end.

Definition run (events : list event) (st : State) : State := fold_left handle events st.

End Handle.

End App.

(* ------------------------------------------------------------------ *)
(** ** 32-bit arithmetic *)

Lemma ToUint32_range (z : Z) : (0 <= Int32.ToUint32 z < 4294967296)%Z.
Proof. unfold Int32.ToUint32, Int32.two32. apply Z.mod_pos_bound. lia. Qed.

Lemma ToInt32_range (z : Z) : (-2147483648 <= Int32.ToInt32 z < 2147483648)%Z.
Proof.
  unfold Int32.ToInt32, Int32.two32.
  pose proof (Z.mod_pos_bound (z + 2147483648) 4294967296). lia.
Qed.

Lemma ToInt32_ToUint32 (z : Z) : Int32.ToInt32 (Int32.ToUint32 z) = Int32.ToInt32 z.
Proof.
  unfold Int32.ToInt32, Int32.ToUint32, Int32.two32.
  now rewrite Zplus_mod_idemp_l.
Qed.

Lemma ToUint32_small (z : Z) : (0 <= z < 4294967296)%Z -> Int32.ToUint32 z = z.
Proof. intros Hz. unfold Int32.ToUint32, Int32.two32. now apply Z.mod_small. Qed.

Lemma ToUint32_idem (z : Z) : Int32.ToUint32 (Int32.ToUint32 z) = Int32.ToUint32 z.
Proof. apply ToUint32_small, ToUint32_range. Qed.

Lemma xor_ToUint32_l (a b : Z) : Int32.xor (Int32.ToUint32 a) b = Int32.xor a b.
Proof. unfold Int32.xor. now rewrite ToInt32_ToUint32. Qed.

Lemma scramble_range (t : Z) : (0 <= Rng.scramble t < 4294967296)%Z.
Proof. unfold Rng.scramble. apply ToUint32_range. Qed.

(* ------------------------------------------------------------------ *)
(** ** The seed of a name *)

Lemma hashCode_step_ToUint32 (h c : Z) :
  Seed.hashCode_step (Int32.ToUint32 h) c = Seed.hashCode_step h c.
Proof. unfold Seed.hashCode_step. now rewrite xor_ToUint32_l. Qed.

Lemma hashCode_snoc (str : Seed.jsstring) (c : Z) :
  Seed.hashCode (str ++ [c]) = Int32.ToUint32 (Seed.hashCode_step (Seed.hashCode str) c).
Proof.
  unfold Seed.hashCode. rewrite fold_left_app. cbn [fold_left].
  now rewrite hashCode_step_ToUint32.
Qed.

(** C6. [hashCode] is a function of its string alone and returns an unsigned
    32-bit integer; the empty string gives the initial constant 2166136261,
    which is not zero, no step of the fold having run; every further code unit
    folds into the seed of the string before it by one step, so the seed is
    fixed by the string, as for "433 Eros". *)
Theorem hashCode_seed :
  (forall str : Seed.jsstring, (0 <= Seed.hashCode str < 4294967296)%Z) /\
  Seed.hashCode [] = 2166136261%Z /\
  Seed.hashCode [] <> 0%Z /\
  (forall (str : Seed.jsstring) (c : Z),
      Seed.hashCode (str ++ [c]) =
      Int32.ToUint32 (Seed.hashCode_step (Seed.hashCode str) c)) /\
  Seed.hashCode (Seed.charCodes "433 Eros") = 2063999570%Z.
Proof.
  split; [| split; [| split; [| split]]].
  - intros str. unfold Seed.hashCode. apply ToUint32_range.
  - reflexivity.
  - discriminate.
  - apply hashCode_snoc.
  - vm_compute. reflexivity.
Qed.

(* ------------------------------------------------------------------ *)
(** ** Closures and the loop over the vertices *)

Section Loop.
Import Rng Geometry Closed.

Lemma mulberry32_first_call (seed : Z) (h : Heap) :
  fst (bind (mulberry32 seed) call h) =
  (IZR (scramble (Int32.ToUint32 seed + 1831565813)) / 4294967296)%R.
Proof.
  unfold bind, mulberry32, alloc, call, read, write, ret, bind. cbn.
  now rewrite Nat.eqb_refl.
Qed.

(** A turn of the loop allocates its own closure and reads no other cell:
    its value does not depend on the store it starts from. *)
Lemma displace_vertex_value (normal : list vec3) (intensity : R) (seed : Z)
    (k : nat) (pos : list vec3) (h : Heap) :
  fst (displace_vertex normal intensity seed k pos h) =
  setXYZ k (displaced intensity seed (getXYZ normal k) (getXYZ pos k)) pos.
Proof.
  unfold displace_vertex, bind, mulberry32, alloc, call, read, write, ret, bind. cbn.
  now rewrite Nat.eqb_refl.
Qed.

Lemma getXYZ_middle (done rest : list vec3) (p : vec3) :
  getXYZ (done ++ p :: rest) (List.length done) = p.
Proof. unfold getXYZ. apply nth_middle. Qed.

Lemma setXYZ_middle (done rest : list vec3) (p v : vec3) :
  setXYZ (List.length done) v (done ++ p :: rest) = done ++ v :: rest.
Proof. induction done as [| a done IH]; cbn; [reflexivity | now rewrite IH]. Qed.

Lemma setXYZ_length (i : nat) (v : vec3) (attr : list vec3) :
  List.length (setXYZ i v attr) = List.length attr.
Proof.
  revert i; induction attr as [| a attr IH]; intros [| i]; cbn; auto.
Qed.

(** The loop, started at the vertex after [done], rewrites the remaining
    vertices one by one and leaves [done] alone. *)
Lemma for_loop_positions (normal : list vec3) (intensity : R) (seed : Z) :
  forall (rest done : list vec3) (h : Heap),
    fst (for_loop (List.length rest) (List.length done)
                  (displace_vertex normal intensity seed) (done ++ rest) h) =
    done ++ map_from (List.length done)
                     (fun k p => displaced intensity seed (getXYZ normal k) p) rest.
Proof.
  induction rest as [| p rest IH]; intros done h.
  - reflexivity.
  - cbn [List.length for_loop map_from]. unfold bind at 1.
    destruct (displace_vertex normal intensity seed (List.length done) (done ++ p :: rest) h)
      as [pos' h'] eqn:E.
    assert (Hpos : pos' = done ++
              displaced intensity seed (getXYZ normal (List.length done)) p :: rest).
    { change pos' with (fst (pos', h')). rewrite <- E, displace_vertex_value.
      now rewrite getXYZ_middle, setXYZ_middle. }
    subst pos'.
    replace (done ++ displaced intensity seed (getXYZ normal (List.length done)) p :: rest)
      with ((done ++ [displaced intensity seed (getXYZ normal (List.length done)) p]) ++ rest)
      by (now rewrite <- app_assoc).
    replace (S (List.length done))
      with (List.length (done ++ [displaced intensity seed (getXYZ normal (List.length done)) p]))
      by (rewrite length_app; cbn; lia).
    rewrite IH. now rewrite <- app_assoc.
Qed.

Lemma map_from_normals (F : vec3 -> vec3 -> vec3) (N : vec3 -> vec3) :
  forall rest done : list vec3,
    map_from (List.length done) (fun k p => F (getXYZ (map N (done ++ rest)) k) p) rest =
    map (fun p => F (N p) p) rest.
Proof.
  induction rest as [| p rest IH]; intros done.
  - reflexivity.
  - cbn [map_from map]. f_equal.
    + f_equal. unfold getXYZ. rewrite map_app. cbn [map].
      replace (List.length done) with (List.length (map N done)) by apply length_map.
      apply nth_middle.
    + specialize (IH (done ++ [p])).
      rewrite length_app in IH. cbn [List.length] in IH.
      replace (List.length done + 1)%nat with (S (List.length done)) in IH by lia.
      rewrite <- app_assoc in IH. exact IH.
Qed.

(** The geometry that [createBumpyGeometry] returns, whatever the store:
    each vertex of the sphere scaled by its own displacement, and the normals
    recomputed. *)
Lemma createBumpyGeometry_value (radius : R) (segments : Z) (intensity : R)
    (seed : Z) (h : Heap) :
  fst (createBumpyGeometry radius segments intensity seed h) =
  computeVertexNormals
    (mkGeometry
       (map (fun p => displaced intensity seed (normalize p) p)
            (sphere_vertices radius (widthSegments segments) (heightSegments segments)))
       (map normalize
            (sphere_vertices radius (widthSegments segments) (heightSegments segments)))
       (sphere_indices (widthSegments segments) (heightSegments segments))).
Proof.
  unfold createBumpyGeometry. unfold bind at 1.
  destruct (mulberry32 seed h) as [rng h0].
  unfold bind at 1.
  set (geom := SphereGeometry radius (Z.max 32 segments) (Z.max 16 (segments / 2))).
  destruct (for_loop (List.length (position geom)) 0
              (displace_vertex (normal geom) intensity seed) (position geom) h0)
    as [pos' h1] eqn:E.
  unfold ret. cbn [fst].
  change pos' with (fst (pos', h1)). rewrite <- E.
  pose proof (for_loop_positions (normal geom) intensity seed (position geom) [] h0) as L.
  cbn [app List.length] in L. rewrite L. clear L E.
  subst geom. unfold SphereGeometry. cbn [position normal index].
  fold (widthSegments segments) (heightSegments segments).
  pose proof (map_from_normals (displaced intensity seed) normalize
                (sphere_vertices radius (widthSegments segments) (heightSegments segments))
                []) as L.
  cbn [app List.length] in L. now rewrite L.
Qed.

Lemma createBumpyGeometry_positions (radius : R) (segments : Z) (intensity : R)
    (seed : Z) (h : Heap) :
  position (fst (createBumpyGeometry radius segments intensity seed h)) =
  map (fun p => displaced intensity seed (normalize p) p)
      (sphere_vertices radius (widthSegments segments) (heightSegments segments)).
Proof. now rewrite createBumpyGeometry_value. Qed.

Lemma createBumpyGeometry_index (radius : R) (segments : Z) (intensity : R)
    (seed : Z) (h : Heap) :
  index (fst (createBumpyGeometry radius segments intensity seed h)) =
  sphere_indices (widthSegments segments) (heightSegments segments).
Proof. now rewrite createBumpyGeometry_value. Qed.

End Loop.

(* ------------------------------------------------------------------ *)
(** ** Determinism and tessellation of the shape generator *)

Section Generator.
Import Rng Geometry Closed.

(** The generator does write to the store: every call leaves new closures
    behind, so a second call starts from another store than the first. *)
Lemma for_loop_next (normal : list vec3) (intensity : R) (seed : Z) :
  forall (n i : nat) (pos : list vec3) (h : Heap),
    next (snd (for_loop n i (displace_vertex normal intensity seed) pos h)) = (n + next h)%nat.
Proof.
  induction n as [| n IH]; intros i pos h.
  - reflexivity.
  - cbn [for_loop]. unfold bind at 1.
    destruct (displace_vertex normal intensity seed i pos h) as [pos' h'] eqn:E.
    rewrite IH.
    assert (next h' = S (next h)) as ->; [| lia].
    change h' with (snd (pos', h')). rewrite <- E. reflexivity.
Qed.

(** C1. For fixed [(radius, segments, intensity, seed)] the generator returns
    the same geometry, vertex for vertex, from whatever store of closures it is
    started in; in particular a second invocation, run in the store that the
    first one left behind, returns exactly the positions of the first. *)
Theorem createBumpyGeometry_deterministic (radius : R) (segments : Z) (intensity : R) (seed : Z) :
  (forall h1 h2 : Heap,
      fst (createBumpyGeometry radius segments intensity seed h1) =
      fst (createBumpyGeometry radius segments intensity seed h2)) /\
  (forall h : Heap,
      let (g1, h') := createBumpyGeometry radius segments intensity seed h in
      let (g2, _) := createBumpyGeometry radius segments intensity seed h' in
      position g1 = position g2 /\ next h < next h')%nat.
Proof.
  split.
  - intros h1 h2. now rewrite !createBumpyGeometry_value.
  - intros h.
    destruct (createBumpyGeometry radius segments intensity seed h) as [g1 h'] eqn:E1.
    destruct (createBumpyGeometry radius segments intensity seed h') as [g2 h''] eqn:E2.
    split.
    + change g1 with (fst (g1, h')). change g2 with (fst (g2, h'')).
      rewrite <- E1, <- E2. now rewrite !createBumpyGeometry_positions.
    + change h' with (snd (g1, h')). rewrite <- E1.
      unfold createBumpyGeometry. unfold bind at 1.
      destruct (mulberry32 seed h) as [rng h0] eqn:E0.
      assert (next h0 = S (next h)) as N0.
      { change h0 with (snd (rng, h0)). rewrite <- E0. reflexivity. }
      unfold bind at 1.
      match goal with
      | |- context [for_loop ?n ?i (displace_vertex ?nm _ _) ?p h0] =>
          pose proof (for_loop_next nm intensity seed n i p h0) as N1;
          destruct (for_loop n i (displace_vertex nm intensity seed) p h0) as [pos' h1]
      end.
      cbn [snd ret] in *. lia.
Qed.

Lemma flat_map_rows_length {A : Type} (f : nat -> nat -> A) (cols rows : list nat) :
  List.length (flat_map (fun iy => map (f iy) cols) rows) =
  (List.length rows * List.length cols)%nat.
Proof.
  induction rows as [| r rows IH]; cbn [flat_map List.length].
  - reflexivity.
  - rewrite length_app, length_map, IH. lia.
Qed.

Lemma sphere_vertices_length (radius : R) (w h : nat) :
  List.length (sphere_vertices radius w h) = (S h * S w)%nat.
Proof.
  unfold sphere_vertices. now rewrite flat_map_rows_length, !length_seq.
Qed.

Lemma sphere_indices_first (w h : nat) :
  (1 <= w)%nat -> (2 <= h)%nat ->
  firstn 3 (sphere_indices w h) = [0; w + 1; w + 2]%nat.
Proof.
  intros Hw Hh.
  destruct w as [| w]; [lia |]. destruct h as [| [| h]]; [lia | lia |].
  unfold sphere_indices. cbn [seq flat_map].
  unfold sphere_cell at 1. cbn [Nat.eqb Nat.sub app firstn].
  repeat (f_equal; try lia).
Qed.

(** C4. Whatever [segments] is, the sphere is built with
    [Math.max(32, segments)] longitude and
    [Math.max(16, Math.floor(segments / 2))] latitude divisions, at least 32
    and 16: the triangles returned are those of the sphere of that many
    divisions, and the first of them joins vertex 0 to the vertices [w + 1]
    and [w + 2], a row having one vertex more than there are longitude
    divisions [w].  The mesh returned has one vertex per grid point of that
    tessellation, at least as many as the sphere of 32 by 16 divisions has. *)
Theorem createBumpyGeometry_tessellation (radius : R) (segments : Z) (intensity : R)
    (seed : Z) (h : Heap) :
  let w := Z.max 32 segments in
  let hs := Z.max 16 (segments / 2) in
  (32 <= w)%Z /\ (16 <= hs)%Z /\
  index (fst (createBumpyGeometry radius segments intensity seed h)) =
    index (SphereGeometry radius w hs) /\
  firstn 3 (index (fst (createBumpyGeometry radius segments intensity seed h))) =
    [0; Z.to_nat w + 1; Z.to_nat w + 2]%nat /\
  List.length (position (fst (createBumpyGeometry radius segments intensity seed h))) =
    ((Z.to_nat hs + 1) * (Z.to_nat w + 1))%nat /\
  (List.length (position (SphereGeometry radius 32 16)) <=
   List.length (position (fst (createBumpyGeometry radius segments intensity seed h))))%nat /\
  List.length (position (SphereGeometry radius 32 16)) = ((16 + 1) * (32 + 1))%nat.
Proof.
  intros w hs.
  assert (Hw : (32 <= w)%Z) by (subst w; lia).
  assert (Hh : (16 <= hs)%Z) by (subst hs; lia).
  assert (Ew : widthSegments segments = Z.to_nat w).
  { unfold widthSegments. fold w. now rewrite (Z.max_r 3 w) by lia. }
  assert (Eh : heightSegments segments = Z.to_nat hs).
  { unfold heightSegments. fold hs. now rewrite (Z.max_r 2 hs) by lia. }
  assert (Hidx : index (fst (createBumpyGeometry radius segments intensity seed h)) =
                 sphere_indices (Z.to_nat w) (Z.to_nat hs)).
  { now rewrite createBumpyGeometry_index, Ew, Eh. }
  assert (Hlen : List.length (position (fst (createBumpyGeometry radius segments intensity seed h))) =
                 ((Z.to_nat hs + 1) * (Z.to_nat w + 1))%nat).
  { rewrite createBumpyGeometry_positions, length_map, sphere_vertices_length, Ew, Eh. lia. }
  assert (Hmin : List.length (position (SphereGeometry radius 32 16)) = ((16 + 1) * (32 + 1))%nat).
  { unfold SphereGeometry. cbn [position]. rewrite sphere_vertices_length. reflexivity. }
  split; [exact Hw |]. split; [exact Hh |]. split; [| split; [| split; [| split]]].
  - rewrite Hidx. unfold SphereGeometry. cbn [index].
    now rewrite (Z.max_r 3 w), (Z.max_r 2 hs) by lia.
  - rewrite Hidx. apply sphere_indices_first; lia.
  - exact Hlen.
  - rewrite Hlen, Hmin. apply Nat.mul_le_mono; lia.
  - exact Hmin.
Qed.

End Generator.

(* ------------------------------------------------------------------ *)
(** ** Distances, normals and weights *)

Section Bounds.
Import Rng Geometry Closed.
Local Open Scope R_scope.

Lemma norm2_nonneg (a : vec3) : 0 <= norm2 a.
Proof. unfold norm2. nra. Qed.

Lemma length3_norm2 (a : vec3) : length3 a = sqrt (norm2 a).
Proof. reflexivity. Qed.

Lemma length3_nonneg (a : vec3) : 0 <= length3 a.
Proof. apply sqrt_pos. Qed.

Lemma length3_sqr (a : vec3) : length3 a * length3 a = norm2 a.
Proof. rewrite length3_norm2. apply sqrt_sqrt, norm2_nonneg. Qed.

(** Every vertex of the sphere lies at distance [|radius|] from the centre. *)
Lemma sphere_vertex_length (radius : R) (w h iy ix : nat) :
  length3 (sphere_vertex radius w h iy ix) = Rabs radius.
Proof.
  unfold length3, sphere_vertex. cbn [vx vy vz].
  set (phi := phiStart + INR ix / INR w * phiLength).
  set (theta := thetaStart + INR iy / INR h * thetaLength).
  pose proof (sin2_cos2 phi) as Hp. pose proof (sin2_cos2 theta) as Ht.
  unfold Rsqr in Hp, Ht.
  replace (- radius * cos phi * sin theta * (- radius * cos phi * sin theta) +
           radius * cos theta * (radius * cos theta) +
           radius * sin phi * sin theta * (radius * sin phi * sin theta))
    with (Rsqr radius * (sin theta * sin theta * (sin phi * sin phi + cos phi * cos phi)
                         + cos theta * cos theta))
    by (unfold Rsqr; ring).
  rewrite Hp, Rmult_1_r, Ht, Rmult_1_r. apply sqrt_Rsqr_abs.
Qed.

Lemma in_sphere_vertices (radius : R) (w h : nat) (p : vec3) :
  In p (sphere_vertices radius w h) ->
  exists iy ix, (iy <= h)%nat /\ (ix <= w)%nat /\ p = sphere_vertex radius w h iy ix.
Proof.
  unfold sphere_vertices. rewrite in_flat_map. intros [iy [Hiy Hp]].
  rewrite in_map_iff in Hp. destruct Hp as [ix [Hp Hix]].
  rewrite in_seq in Hiy, Hix. exists iy, ix. repeat split; [lia | lia | now symmetry].
Qed.

Lemma sphere_vertex_in (radius : R) (w h iy ix : nat) :
  (iy <= h)%nat -> (ix <= w)%nat ->
  In (sphere_vertex radius w h iy ix) (sphere_vertices radius w h).
Proof.
  intros Hiy Hix. unfold sphere_vertices. rewrite in_flat_map. exists iy. split.
  - rewrite in_seq. lia.
  - apply in_map. rewrite in_seq. lia.
Qed.

(** A normalised vector is a unit vector, or the zero vector it came from. *)
Lemma normalize_norm2 (p : vec3) : norm2 (normalize p) <= 1.
Proof.
  unfold normalize. destruct (Req_dec_T (length3 p) 0) as [E | E].
  - pose proof (length3_sqr p) as S. rewrite E in S.
    unfold norm2, multiplyScalar in *. cbn [vx vy vz]. nra.
  - pose proof (length3_sqr p) as S. pose proof (length3_nonneg p) as P.
    set (l := length3 p) in *.
    assert (L : 0 < l) by lra.
    assert (I : l * (1 / l) = 1) by (field; lra).
    unfold norm2, multiplyScalar in *. cbn [vx vy vz].
    set (s := vx p * vx p + vy p * vy p + vz p * vz p) in *.
    replace (vx p * (1 / l) * (vx p * (1 / l)) + vy p * (1 / l) * (vy p * (1 / l)) +
             vz p * (1 / l) * (vz p * (1 / l)))
      with (s * ((1 / l) * (1 / l))) by (subst s; ring).
    rewrite <- S.
    replace (l * l * (1 / l * (1 / l))) with ((l * (1 / l)) * (l * (1 / l))) by ring.
    rewrite I. lra.
Qed.

Lemma sqrt3_sqr : sqrt 3 * sqrt 3 = 3.
Proof. apply sqrt_sqrt. lra. Qed.

Lemma max_weight_gt_1 : 1 < max_weight.
Proof.
  unfold max_weight. pose proof sqrt3_sqr. pose proof (sqrt_pos 3). nra.
Qed.

(** The weight of a vector no longer than a unit vector. *)
Lemma weight_bounds (n : vec3) : norm2 n <= 1 -> 0.6 <= weight n <= max_weight.
Proof.
  unfold norm2, weight, max_weight. intros Hn.
  pose proof (Rabs_pos (vx n + vy n + vz n)) as A.
  pose proof sqrt3_sqr as S3. pose proof (sqrt_pos 3) as P3.
  assert (Q : Rabs (vx n + vy n + vz n) * Rabs (vx n + vy n + vz n) <= 3).
  { assert (E : Rabs (vx n + vy n + vz n) * Rabs (vx n + vy n + vz n) =
                (vx n + vy n + vz n) * (vx n + vy n + vz n)).
    { unfold Rabs. destruct (Rcase_abs _); ring. }
    rewrite E.
    pose proof (Rle_0_sqr (vx n - vy n)) as S1.
    pose proof (Rle_0_sqr (vy n - vz n)) as S2.
    pose proof (Rle_0_sqr (vx n - vz n)) as S4.
    unfold Rsqr in S1, S2, S4. nra. }
  split; [lra |].
  assert (Rabs (vx n + vy n + vz n) <= sqrt 3) by nra.
  lra.
Qed.

Lemma local_noise_range (seed : Z) (p : vec3) : -1 <= local_noise seed p < 1.
Proof.
  unfold local_noise.
  match goal with |- context [Rng.scramble ?t] => pose proof (scramble_range t) as [L U] end.
  apply IZR_le in L. apply IZR_lt in U. lra.
Qed.

(** The displacement of a vertex whose normal is at most a unit vector. *)
Lemma displacement_bounds (noise intensity : R) (n : vec3) :
  -1 <= noise < 1 -> 0 <= intensity -> norm2 n <= 1 ->
  1 - intensity * max_weight <= displacement noise intensity n <= 1 + intensity * max_weight.
Proof.
  intros Hn Hi Hw. apply weight_bounds in Hw. unfold displacement.
  assert (A : 0 <= intensity * weight n <= intensity * max_weight) by nra.
  replace (noise * intensity * weight n) with (noise * (intensity * weight n)) by ring.
  set (a := intensity * weight n) in *. nra.
Qed.

Lemma displaced_length (intensity : R) (seed : Z) (n p : vec3) :
  length3 (displaced intensity seed n p) =
  Rabs (displacement (local_noise seed p) intensity n) * length3 p.
Proof.
  unfold displaced, length3. cbn [vx vy vz].
  set (d := displacement (local_noise seed p) intensity n).
  replace (vx p * d * (vx p * d) + vy p * d * (vy p * d) + vz p * d * (vz p * d))
    with (Rsqr d * (vx p * vx p + vy p * vy p + vz p * vz p)) by (unfold Rsqr; ring).
  rewrite sqrt_mult; [| apply Rle_0_sqr | apply (norm2_nonneg p)].
  now rewrite sqrt_Rsqr_abs.
Qed.

End Bounds.

(* ------------------------------------------------------------------ *)
(** ** How far a vertex moves *)

Section Displacement.
Import Rng Geometry Closed.
Local Open Scope R_scope.

Lemma sphere_normal_weight (radius : R) (w h : nat) (n : vec3) :
  In n (map normalize (sphere_vertices radius w h)) -> 0.6 <= weight n <= max_weight.
Proof.
  rewrite in_map_iff. intros [p [<- _]]. apply weight_bounds, normalize_norm2.
Qed.

(** In exact arithmetic: the distance of every vertex returned, and the
    weight of every normal. *)
Lemma displaced_distance_exact (radius : R) (segments : Z) (intensity : R)
    (seed : Z) (h : Heap) :
  0 <= radius -> 0 <= intensity ->
  Forall (fun v => radius * (1 - intensity * max_weight) <= length3 v
                   <= radius * (1 + intensity * max_weight))
         (position (fst (createBumpyGeometry radius segments intensity seed h))) /\
  Forall (fun n => 0.6 <= weight n <= max_weight)
         (normal (SphereGeometry radius (Z.max 32 segments) (Z.max 16 (segments / 2)))).
Proof.
  intros Hr Hi. split.
  - rewrite createBumpyGeometry_positions. apply Forall_forall. intros v Hv.
    rewrite in_map_iff in Hv. destruct Hv as [p [<- Hp]].
    apply in_sphere_vertices in Hp. destruct Hp as [iy [ix [_ [_ ->]]]].
    rewrite displaced_length, sphere_vertex_length, (Rabs_pos_eq radius) by exact Hr.
    set (p := sphere_vertex radius _ _ iy ix).
    pose proof (displacement_bounds (local_noise seed p) intensity (normalize p)
                  (local_noise_range seed p) Hi (normalize_norm2 p)) as [L U].
    set (d := displacement (local_noise seed p) intensity (normalize p)) in *.
    pose proof max_weight_gt_1 as W1.
    assert (A : 1 - intensity * max_weight <= Rabs d <= 1 + intensity * max_weight).
    { unfold Rabs. destruct (Rcase_abs d); nra. }
    destruct A as [A1 A2]. split.
    + apply Rle_trans with (Rabs d * radius); [| lra].
      rewrite (Rmult_comm radius). apply Rmult_le_compat_r; assumption.
    + rewrite (Rmult_comm radius). apply Rmult_le_compat_r; assumption.
  - apply Forall_forall. intros n Hn. unfold SphereGeometry in Hn. cbn [normal] in Hn.
    now apply sphere_normal_weight in Hn.
Qed.

(** C2, as the code has it.  For a radius from 1e-30 to 1e30 and an intensity
    from 0 to 1, every vertex returned lies at a distance from the centre
    between [radius * (1 - intensity * W - 1e-6)] and
    [radius * (1 + intensity * W + 1e-6)], where the intensity is the one
    passed (the generator does not clamp it), [W = 0.6 + 0.4 * sqrt 3] and the
    millionth is the room for the rounding of the stored coordinates; the
    weight of every vertex lies between [0.6 - 1e-6] and [W + 1e-6], so it is
    never zero, and [W] is larger than 1. *)
Theorem displaced_distance_bounds (radius : R) (segments : Z) (intensity : R)
    (seed : Z) (h : Heap) :
  1e-30 <= radius <= 1e30 -> 0 <= intensity <= 1 ->
  Forall (fun v => radius * (1 - intensity * max_weight - tolerance) <= length3 v
                   <= radius * (1 + intensity * max_weight + tolerance))
         (position (fst (createBumpyGeometry radius segments intensity seed h))) /\
  Forall (fun n => 0.6 - tolerance <= weight n <= max_weight + tolerance)
         (normal (SphereGeometry radius (Z.max 32 segments) (Z.max 16 (segments / 2)))) /\
  1 < max_weight.
Proof.
  intros Hr Hi.
  assert (Hr0 : 0 <= radius) by lra.
  destruct (displaced_distance_exact radius segments intensity seed h Hr0 (proj1 Hi))
    as [D W].
  unfold tolerance. split; [| split].
  - eapply Forall_impl; [| exact D]. cbv beta. intros v [L U]. split; nra.
  - eapply Forall_impl; [| exact W]. cbv beta. intros n [L U]. split; lra.
  - apply max_weight_gt_1.
Qed.

(** The bounds at the unit sphere of 128 segments, intensity 0.06, seed 42. *)
Lemma displaced_distance_bounds_witness :
  1e-30 <= 1 <= 1e30 /\ 0 <= 0.06 <= 1 /\
  Forall (fun v => 1 * (1 - 0.06 * max_weight - tolerance) <= length3 v
                   <= 1 * (1 + 0.06 * max_weight + tolerance))
         (position (fst (createBumpyGeometry 1 128 0.06 42 empty))).
Proof.
  assert (H1 : 1e-30 <= 1 <= 1e30) by lra.
  assert (H2 : 0 <= 0.06 <= 1) by lra.
  split; [exact H1 |]. split; [exact H2 |].
  destruct (displaced_distance_bounds 1 128 0.06 42 empty H1 H2) as [D _].
  exact D.
Defined.

(** *** Spheres so small that every vertex hashes to zero *)

Lemma truncate_small (x : R) : -1 < x < 1 -> truncate x = 0%Z.
Proof.
  intros [L U]. unfold truncate. destruct (Rle_dec 0 x) as [P | N].
  - symmetry. apply Int_part_spec. cbn. lra.
  - assert (E : Int_part (- x) = 0%Z) by (symmetry; apply Int_part_spec; cbn; lra).
    now rewrite E.
Qed.

Lemma coordinate_le_length (p : vec3) :
  Rabs (vx p) <= length3 p /\ Rabs (vy p) <= length3 p /\ Rabs (vz p) <= length3 p.
Proof.
  pose proof (length3_sqr p) as S. pose proof (length3_nonneg p) as P.
  unfold norm2 in S.
  assert (G : forall c, c * c <= length3 p * length3 p -> Rabs c <= length3 p).
  { intros c Hc. unfold Rabs. destruct (Rcase_abs c); nra. }
  repeat split; apply G; nra.
Qed.

Lemma vertex_hash_small (p : vec3) : length3 p * 83492791 < 1 -> vertex_hash p = 0.
Proof.
  intros Hl. destruct (coordinate_le_length p) as [X [Y Z]].
  pose proof (length3_nonneg p) as P.
  assert (G : forall c k, Rabs c <= length3 p -> 0 <= k <= 83492791 -> -1 < c * k < 1).
  { intros c k Hc Hk. unfold Rabs in Hc. destruct (Rcase_abs c); nra. }
  unfold vertex_hash, ToInt32.
  rewrite (truncate_small (vx p * 73856093)) by (apply G; [exact X | lra]).
  rewrite (truncate_small (vy p * 19349663)) by (apply G; [exact Y | lra]).
  rewrite (truncate_small (vz p * 83492791)) by (apply G; [exact Z | lra]).
  change (Int32.xor (Int32.xor (Int32.ToInt32 0) (Int32.ToInt32 0)) (Int32.ToInt32 0))
    with 0%Z.
  rewrite sin_0, Rabs_R0. ring.
Qed.

Lemma local_noise_small (seed : Z) (p : vec3) :
  length3 p * 83492791 < 1 ->
  local_noise seed p =
  IZR (scramble (Int32.ToUint32 seed + 1831565813)) / 4294967296 * 2 - 1.
Proof.
  intros Hl. unfold local_noise. rewrite (vertex_hash_small p Hl).
  assert (E : Int_part 0 = 0%Z) by (symmetry; apply Int_part_spec; cbn; lra).
  now rewrite E, Z.add_0_l.
Qed.

(** *** A vertex off the axes *)

Lemma inv_sqrt2_sqr : 1 / sqrt 2 * (1 / sqrt 2) = 1 / 2.
Proof.
  assert (S : sqrt 2 * sqrt 2 = 2) by (apply sqrt_sqrt; lra).
  assert (P : 0 < sqrt 2) by (apply sqrt_lt_R0; lra).
  field_simplify; [| lra]. replace (sqrt 2 ^ 2) with (sqrt 2 * sqrt 2) by ring.
  rewrite S. reflexivity.
Qed.

Lemma inv_sqrt2_bounds : 0.7 < 1 / sqrt 2 < 0.71.
Proof.
  pose proof inv_sqrt2_sqr as S.
  assert (P : 0 < 1 / sqrt 2).
  { apply Rdiv_lt_0_compat; [lra | apply sqrt_lt_R0; lra]. }
  set (t := 1 / sqrt 2) in *. split; nra.
Qed.

(** The vertex of row 4, column 12 of the sphere of 32 by 16 divisions:
    longitude [3 * PI / 4], colatitude [PI / 4]. *)
Lemma sphere_vertex_diagonal (radius : R) :
  sphere_vertex radius 32 16 4 12 = V3 (radius / 2) (radius * (1 / sqrt 2)) (radius / 2).
Proof.
  unfold sphere_vertex, phiStart, phiLength, thetaStart, thetaLength.
  replace (0 + INR 12 / INR 32 * (PI * 2)) with (3 * (PI / 4))
    by (rewrite (INR_IZR_INZ 12), (INR_IZR_INZ 32); cbn; field).
  replace (0 + INR 4 / INR 16 * PI) with (PI / 4)
    by (rewrite (INR_IZR_INZ 4), (INR_IZR_INZ 16); cbn; field).
  rewrite cos_3PI4, sin_3PI4, sin_PI4, cos_PI4.
  pose proof inv_sqrt2_sqr as S.
  f_equal.
  - replace (- radius * (-1 / sqrt 2) * (1 / sqrt 2))
      with (radius * (1 / sqrt 2 * (1 / sqrt 2))) by (unfold Rdiv; ring).
    rewrite S. field.
  - replace (radius * (1 / sqrt 2) * (1 / sqrt 2))
      with (radius * (1 / sqrt 2 * (1 / sqrt 2))) by ring.
    rewrite S. field.
Qed.

Lemma normalize_diagonal (radius : R) :
  0 < radius ->
  normalize (sphere_vertex radius 32 16 4 12) = V3 (1 / 2) (1 / sqrt 2) (1 / 2).
Proof.
  intros Hr. unfold normalize.
  rewrite sphere_vertex_length, (Rabs_pos_eq radius) by lra.
  destruct (Req_dec_T radius 0) as [E | _]; [lra |].
  rewrite sphere_vertex_diagonal. unfold multiplyScalar. cbn [vx vy vz].
  set (t := 1 / sqrt 2).
  f_equal; field; lra.
Qed.

Lemma weight_diagonal (radius : R) :
  0 < radius ->
  weight (normalize (sphere_vertex radius 32 16 4 12)) = 1 + 0.4 * (1 / sqrt 2).
Proof.
  intros Hr. rewrite (normalize_diagonal radius Hr). unfold weight. cbn [vx vy vz].
  pose proof inv_sqrt2_bounds as B.
  rewrite Rabs_pos_eq by lra. lra.
Qed.

End Displacement.

(* ------------------------------------------------------------------ *)
(** ** Vertices by their index *)

Section Indexing.
Import Rng Geometry Closed.
Local Open Scope R_scope.

Lemma nth_flat_map_rows {A : Type} (f : nat -> nat -> A) (d : A) (n : nat) :
  forall m a i j : nat,
    (i < m)%nat -> (j < n)%nat ->
    nth (i * n + j) (flat_map (fun iy => map (f iy) (seq 0 n)) (seq a m)) d = f (a + i)%nat j.
Proof.
  induction m as [| m IH]; intros a i j Hi Hj; [lia |].
  cbn [seq flat_map].
  destruct i as [| i].
  - cbn [Nat.mul Nat.add]. rewrite app_nth1 by (rewrite length_map, length_seq; exact Hj).
    rewrite (nth_indep _ d (f a 0%nat)) by (rewrite length_map, length_seq; exact Hj).
    rewrite (map_nth (f a) (seq 0 n) 0%nat j), seq_nth by exact Hj.
    now rewrite Nat.add_0_r.
  - rewrite app_nth2 by (rewrite length_map, length_seq; lia).
    rewrite length_map, length_seq.
    replace (S i * n + j - n)%nat with (i * n + j)%nat by lia.
    rewrite IH by lia. f_equal. lia.
Qed.

Lemma getXYZ_sphere_vertices (radius : R) (w h iy ix : nat) :
  (iy <= h)%nat -> (ix <= w)%nat ->
  getXYZ (sphere_vertices radius w h) (iy * S w + ix) = sphere_vertex radius w h iy ix.
Proof.
  intros Hiy Hix. unfold getXYZ, sphere_vertices.
  rewrite (nth_flat_map_rows (sphere_vertex radius w h) zero3 (S w) (S h) 0 iy ix) by lia.
  reflexivity.
Qed.

Lemma getXYZ_map (F : vec3 -> vec3) (l : list vec3) (k : nat) :
  (k < List.length l)%nat -> getXYZ (map F l) k = F (getXYZ l k).
Proof.
  intros Hk. unfold getXYZ.
  rewrite (nth_indep _ zero3 (F zero3)) by (rewrite length_map; exact Hk).
  apply map_nth.
Qed.

(** The vertex of row [iy], column [ix], after the generator has run. *)
Lemma getXYZ_createBumpyGeometry (radius : R) (segments : Z) (intensity : R)
    (seed : Z) (h : Heap) (iy ix : nat) :
  (iy <= heightSegments segments)%nat -> (ix <= widthSegments segments)%nat ->
  getXYZ (position (fst (createBumpyGeometry radius segments intensity seed h)))
         (iy * S (widthSegments segments) + ix) =
  let p := sphere_vertex radius (widthSegments segments) (heightSegments segments) iy ix in
  displaced intensity seed (normalize p) p.
Proof.
  intros Hiy Hix. rewrite createBumpyGeometry_positions.
  rewrite getXYZ_map by (rewrite sphere_vertices_length; nia).
  now rewrite getXYZ_sphere_vertices.
Qed.

End Indexing.

(* ------------------------------------------------------------------ *)
(** ** The intensity is used as it is passed *)

Section Intensity.
Import Rng Geometry Closed.
Local Open Scope R_scope.

Lemma scramble_seed_4 : scramble (Int32.ToUint32 4 + 1831565813) = 3966987260%Z.
Proof. vm_compute. reflexivity. Qed.


Lemma clamp_intensity_range (intensity : R) : 0.02 <= clamp_intensity intensity <= 0.12.
Proof.
  unfold clamp_intensity, Rmax, Rmin.
  destruct (Rle_dec 0.12 intensity); destruct (Rle_dec 0.02 _); lra.
Qed.

Lemma clamp_intensity_above (intensity : R) : 0.12 <= intensity -> clamp_intensity intensity = 0.12.
Proof.
  intros Hi. unfold clamp_intensity, Rmax, Rmin.
  destruct (Rle_dec 0.12 intensity); destruct (Rle_dec 0.02 _); lra.
Qed.

Lemma mesh_intensity_value : mesh_intensity = 0.06.
Proof.
  unfold mesh_intensity, Rmax, Rmin.
  destruct (Rle_dec 0.12 0.06); destruct (Rle_dec 0.02 _); lra.
Qed.


(** C2 fails as stated: with radius one billionth, 32 segments, intensity 0.12
    (which clamping leaves alone) and seed 4, the vertex of row 4, column 12
    ends farther from the centre than [radius * (1 + 0.12)]; its weight,
    [1 + 0.4 / sqrt 2], is larger than 1. *)
Lemma displaced_distance_exceeds_intensity :
  let radius := 1 / 1000000000 in
  let p := sphere_vertex radius 32 16 4 12 in
  exists v : vec3,
    In v (position (fst (createBumpyGeometry radius 32 0.12 4 empty))) /\
    radius * (1 + clamp_intensity 0.12) < length3 v /\
    In (normalize p) (normal (SphereGeometry radius (Z.max 32 32) (Z.max 16 (32 / 2)))) /\
    1 < weight (normalize p).
Proof.
  intros radius p.
  assert (Hr : 0 < radius) by (subst radius; lra).
  pose proof inv_sqrt2_bounds as B.
  exists (displaced 0.12 4 (normalize p) p). split; [| split; [| split]].
  - rewrite createBumpyGeometry_positions.
    apply (in_map (fun q => displaced 0.12 4 (normalize q) q)).
    apply (sphere_vertex_in radius 32 16 4 12); lia.
  - rewrite (clamp_intensity_above 0.12) by lra.
    rewrite displaced_length. subst p.
    rewrite sphere_vertex_length, (Rabs_pos_eq radius) by lra.
    unfold displacement. rewrite (weight_diagonal radius Hr).
    rewrite local_noise_small
      by (rewrite sphere_vertex_length, Rabs_pos_eq by lra; subst radius; lra).
    rewrite scramble_seed_4.
    set (t := 1 / sqrt 2) in *.
    set (d := 1 + (3966987260 / 4294967296 * 2 - 1) * 0.12 * (1 + 0.4 * t)).
    assert (D : 1.12 < d) by (subst d; lra).
    rewrite (Rabs_pos_eq d) by lra. nra.
  - unfold SphereGeometry. cbn [normal]. apply in_map.
    apply (sphere_vertex_in radius 32 16 4 12); lia.
  - subst p. rewrite (weight_diagonal radius Hr). lra.
Qed.





End Intensity.

(* ------------------------------------------------------------------ *)
(** ** What the seed changes *)

Section SeedSensitivity.
Import Rng Geometry Closed.
Local Open Scope R_scope.

Lemma scramble_seed_0 : scramble (0 + 1831565813) = 1144304738%Z.
Proof. vm_compute. reflexivity. Qed.

Lemma scramble_seed_1 : scramble (1 + 1831565813) = 2693262067%Z.
Proof. vm_compute. reflexivity. Qed.

(** A seed that makes the generator of the vertex [p] start from [k]. *)
Lemma local_noise_shifted (k : Z) (p : vec3) :
  (0 <= k < 4294967296)%Z ->
  local_noise (Int32.ToUint32 (k - Int_part (vertex_hash p))) p =
  IZR (scramble (k + 1831565813)) / 4294967296 * 2 - 1.
Proof.
  intros Hk. unfold local_noise.
  replace (Int32.ToUint32 (Int_part (vertex_hash p) +
                           Int32.ToUint32 (k - Int_part (vertex_hash p))))
    with k; [reflexivity |].
  unfold Int32.ToUint32, Int32.two32. rewrite Zplus_mod_idemp_r.
  replace (Int_part (vertex_hash p) + (k - Int_part (vertex_hash p)))%Z with k by lia.
  symmetry. now apply Z.mod_small.
Qed.

(** The first vertex of the sphere is its pole, [(0, radius, 0)]. *)
Lemma sphere_vertex_pole_y (radius : R) (w h : nat) : vy (sphere_vertex radius w h 0 0) = radius.
Proof.
  unfold sphere_vertex, thetaStart, thetaLength. cbn [vy INR].
  replace (0 + 0 / INR h * PI) with 0 by (unfold Rdiv; ring).
  rewrite cos_0. ring.
Qed.

Lemma displaced_zero_intensity (seed : Z) (n p : vec3) : displaced 0 seed n p = p.
Proof.
  unfold displaced, displacement. destruct p as [x y z]. cbn [vx vy vz]. f_equal; ring.
Qed.

(** C5 fails as stated: at intensity 0, which the generator does not clamp,
    no two seeds give different positions. *)
Lemma zero_intensity_ignores_seed :
  ~ (exists (s1 s2 : Z) (h1 h2 : Heap),
        position (fst (createBumpyGeometry 1 128 0 s1 h1)) <>
        position (fst (createBumpyGeometry 1 128 0 s2 h2))).
Proof.
  intros [s1 [s2 [h1 [h2 D]]]]. apply D.
  rewrite !createBumpyGeometry_positions.
  apply map_ext. intros p. now rewrite !displaced_zero_intensity.
Qed.

(** C5, as the code has it.  Whatever the two seeds are, the outputs have the
    same number of vertices and the same triangles.  For a radius from 1e-30
    to 1e30 and an intensity from 0.001 to 1 there are two distinct 32-bit
    seeds whose outputs differ at the first vertex, the pole: its height is
    the radius times a factor, and the two factors are at least 0.0004 apart,
    far more than the rounding of a stored coordinate. *)
Theorem seed_changes_positions_only (radius : R) (segments : Z) (intensity : R) :
  (1e-30 <= radius <= 1e30 -> 0.001 <= intensity <= 1 ->
   exists s1 s2 : Z,
     (0 <= s1 < 4294967296)%Z /\ (0 <= s2 < 4294967296)%Z /\ s1 <> s2 /\
     forall h1 h2 : Heap,
       let v1 := getXYZ (position (fst (createBumpyGeometry radius segments intensity s1 h1))) 0 in
       let v2 := getXYZ (position (fst (createBumpyGeometry radius segments intensity s2 h2))) 0 in
       v1 <> v2 /\ radius * 0.0004 <= vy v2 - vy v1) /\
  (forall (s1 s2 : Z) (h1 h2 : Heap),
      List.length (position (fst (createBumpyGeometry radius segments intensity s1 h1))) =
      List.length (position (fst (createBumpyGeometry radius segments intensity s2 h2))) /\
      index (fst (createBumpyGeometry radius segments intensity s1 h1)) =
      index (fst (createBumpyGeometry radius segments intensity s2 h2))).
Proof.
  split.
  - intros Hr Hi.
    set (w := widthSegments segments). set (h := heightSegments segments).
    set (p := sphere_vertex radius w h 0 0).
    set (s1 := Int32.ToUint32 (0 - Int_part (vertex_hash p))).
    set (s2 := Int32.ToUint32 (1 - Int_part (vertex_hash p))).
    assert (V : forall s h0,
               getXYZ (position (fst (createBumpyGeometry radius segments intensity s h0))) 0 =
               displaced intensity s (normalize p) p).
    { intros s h0.
      pose proof (getXYZ_createBumpyGeometry radius segments intensity s h0 0 0) as G.
      cbn [Nat.mul Nat.add] in G. apply G; lia. }
    assert (G : radius * 0.0004 <=
                vy (displaced intensity s2 (normalize p) p) -
                vy (displaced intensity s1 (normalize p) p)).
    { unfold displaced, displacement. cbn [vy].
      subst s1 s2. rewrite !local_noise_shifted by lia.
      rewrite scramble_seed_0, scramble_seed_1.
      subst p. rewrite sphere_vertex_pole_y.
      pose proof (weight_bounds _ (normalize_norm2 (sphere_vertex radius w h 0 0))) as [W _].
      set (wt := weight (normalize (sphere_vertex radius w h 0 0))) in *.
      assert (P : 0.0006 <= intensity * wt).
      { apply Rle_trans with (0.001 * wt); [lra |].
        apply Rmult_le_compat_r; lra. }
      replace (radius * (1 + (2693262067 / 4294967296 * 2 - 1) * intensity * wt) -
               radius * (1 + (1144304738 / 4294967296 * 2 - 1) * intensity * wt))
        with (radius * ((intensity * wt) * ((2693262067 - 1144304738) / 2147483648)))
        by field.
      apply Rmult_le_compat_l; [lra |]. lra. }
    assert (D : forall h1 h2,
               getXYZ (position (fst (createBumpyGeometry radius segments intensity s1 h1))) 0 <>
               getXYZ (position (fst (createBumpyGeometry radius segments intensity s2 h2))) 0).
    { intros h1 h2 E. rewrite !V in E. rewrite E in G. nra. }
    exists s1, s2. split; [apply ToUint32_range |]. split; [apply ToUint32_range |].
    split.
    + intros E. apply (D empty empty). now rewrite E.
    + intros h1 h2. cbv zeta. split; [apply D |]. now rewrite !V.
  - intros s1 s2 h1 h2. split.
    + now rewrite !createBumpyGeometry_positions, !length_map.
    + now rewrite !createBumpyGeometry_index.
Qed.

(** Two such seeds for the unit sphere of 128 segments at intensity 0.06. *)
Lemma seed_changes_positions_only_witness :
  1e-30 <= 1 <= 1e30 /\ 0.001 <= 0.06 <= 1 /\
  exists s1 s2 : Z,
    s1 <> s2 /\
    getXYZ (position (fst (createBumpyGeometry 1 128 0.06 s1 empty))) 0 <>
    getXYZ (position (fst (createBumpyGeometry 1 128 0.06 s2 empty))) 0.
Proof.
  assert (H1 : 1e-30 <= 1 <= 1e30) by lra.
  assert (H2 : 0.001 <= 0.06 <= 1) by lra.
  split; [exact H1 |]. split; [exact H2 |].
  destruct (seed_changes_positions_only 1 128 0.06) as [S _].
  destruct (S H1 H2) as [s1 [s2 [_ [_ [N D]]]]].
  exists s1, s2. split; [exact N |]. exact (proj1 (D empty empty)).
Defined.

End SeedSensitivity.

(* ------------------------------------------------------------------ *)
(** ** The same vertex on a sphere of any radius *)

Section AnyRadius.
Import Rng Geometry Closed.
Local Open Scope R_scope.

(** Whatever the radius, some 32-bit seed makes the generator of the vertex
    of row 4, column 12 start from a chosen [k]. *)
Lemma diagonal_vertex_noise (radius intensity : R) (k : Z) :
  0 < radius -> (0 <= k < 4294967296)%Z ->
  exists seed : Z,
    (0 <= seed < 4294967296)%Z /\
    forall h : Heap,
      getXYZ (position (fst (createBumpyGeometry radius 32 intensity seed h))) 144 =
      let noise := IZR (scramble (k + 1831565813)) / 4294967296 * 2 - 1 in
      let d := 1 + noise * intensity * (1 + 0.4 * (1 / sqrt 2)) in
      V3 (radius / 2 * d) (radius * (1 / sqrt 2) * d) (radius / 2 * d).
Proof.
  intros Hr Hk.
  set (p := sphere_vertex radius 32 16 4 12).
  exists (Int32.ToUint32 (k - Int_part (vertex_hash p))).
  split; [apply ToUint32_range |]. intros h.
  pose proof (getXYZ_createBumpyGeometry radius 32 intensity
                (Int32.ToUint32 (k - Int_part (vertex_hash p))) h 4 12) as G.
  change (widthSegments 32) with 32%nat in G. change (heightSegments 32) with 16%nat in G.
  change (4 * 33 + 12)%nat with 144%nat in G. cbv zeta in G.
  rewrite G by lia. clear G. fold p.
  unfold displaced, displacement. rewrite (local_noise_shifted k p Hk).
  subst p. rewrite (weight_diagonal radius Hr), sphere_vertex_diagonal. reflexivity.
Qed.

(** On the unit sphere too, a seed puts that vertex farther out than
    [1 + 0.12] at intensity 0.12, and another puts it across the centre at
    intensity 1. *)
Lemma unit_sphere_vertex_out_of_range :
  (exists seed : Z,
      1 + 0.12 < length3 (getXYZ (position (fst (createBumpyGeometry 1 32 0.12 seed empty))) 144)) /\
  (exists seed : Z,
      vx (getXYZ (position (fst (createBumpyGeometry 1 32 1 seed empty))) 144) < 0).
Proof.
  pose proof inv_sqrt2_bounds as B. pose proof inv_sqrt2_sqr as S. split.
  - destruct (diagonal_vertex_noise 1 0.12 4) as [seed [_ V]]; [lra | lia |].
    exists seed. rewrite V. cbv zeta.
    replace (scramble (4 + 1831565813)) with 3966987260%Z by (vm_compute; reflexivity).
    set (t := 1 / sqrt 2) in *.
    set (d := 1 + (3966987260 / 4294967296 * 2 - 1) * 0.12 * (1 + 0.4 * t)).
    assert (D : 1.12 < d) by (subst d; lra).
    unfold length3. cbn [vx vy vz].
    replace (1 / 2 * d * (1 / 2 * d) + 1 * t * d * (1 * t * d) + 1 / 2 * d * (1 / 2 * d))
      with (Rsqr d * (1 / 2 + t * t)) by (unfold Rsqr; field).
    rewrite S. replace (1 / 2 + 1 / 2) with 1 by field.
    rewrite Rmult_1_r, sqrt_Rsqr_abs, Rabs_pos_eq; lra.
  - destruct (diagonal_vertex_noise 1 1 7) as [seed [_ V]]; [lra | lia |].
    exists seed. rewrite V. cbv zeta. cbn [vx].
    replace (scramble (7 + 1831565813)) with 50271532%Z by (vm_compute; reflexivity).
    set (t := 1 / sqrt 2) in *. nra.
Qed.

End AnyRadius.

(* ------------------------------------------------------------------ *)
(** ** Searching the catalog *)

Section Search.
Import Str Closed Catalog.
Local Open Scope string_scope.

Lemma prefix_occurs (q s : string) : prefix q s = true <-> exists post, s = q ++ post.
Proof.
  revert s. induction q as [| c q IH]; intros s.
  - split; [intros _; now exists s | intros _; now destruct s].
  - destruct s as [| c' s]; cbn [prefix].
    + split; [discriminate | intros [post E]; discriminate].
    + destruct (ascii_dec c c') as [<- | N].
      * rewrite IH. split; intros [post E]; exists post.
        -- cbn. now rewrite E.
        -- cbn in E. now injection E.
      * split; [discriminate | intros [post E]; cbn in E; injection E; congruence].
Qed.

Lemma includes_occurs (s q : string) : includes s q = true <-> occurs_in q s.
Proof.
  unfold occurs_in. induction s as [| c s IH].
  - cbn [includes]. destruct (prefix q "") eqn:P.
    + split; [intros _ | reflexivity].
      apply prefix_occurs in P. destruct P as [post E]. now exists "", post.
    + split; [discriminate |]. intros [pre [post E]].
      destruct pre; [| discriminate]. cbn in E.
      assert (prefix q "" = true) by (apply prefix_occurs; now exists post). congruence.
  - cbn [includes]. destruct (prefix q (String c s)) eqn:P.
    + split; [intros _ | reflexivity].
      apply prefix_occurs in P. destruct P as [post E]. now exists "", post.
    + rewrite IH. split.
      * intros [pre [post E]]. exists (String c pre), post. cbn. now rewrite E.
      * intros [pre [post E]]. destruct pre as [| c' pre].
        -- cbn in E.
           assert (prefix q (String c s) = true) by (apply prefix_occurs; now exists post).
           congruence.
        -- cbn in E. injection E as _ E. now exists pre, post.
Qed.

Lemma occurs_nonempty (q s : string) : q <> "" -> occurs_in q s -> nonempty s = true.
Proof.
  intros Hq [pre [post ->]]. destruct pre; [| reflexivity].
  destruct q; [congruence | reflexivity].
Qed.

Lemma nonempty_false (s : string) : nonempty s = false -> s = "".
Proof. destruct s; [reflexivity | discriminate]. Qed.

Lemma matches_occurs (q : string) (a : entry) :
  q <> "" ->
  matches q a = true <->
  occurs_in q (toLowerCase (name a)) \/
  occurs_in q (toLowerCase (designation a)) \/
  occurs_in q (toLowerCase (id a)).
Proof.
  intros Hq.
  assert (G : forall s, andb (nonempty s) (includes (toLowerCase s) q) = true <->
                        occurs_in q (toLowerCase s)).
  { intros s. rewrite andb_true_iff, includes_occurs. split; [tauto |].
    intros O. split; [| exact O].
    apply (occurs_nonempty q _ Hq) in O. now destruct s. }
  unfold matches. rewrite !orb_true_iff, !G. tauto.
Qed.

Lemma is_space_lower (c : ascii) : is_space (lower_char c) = is_space c.
Proof. destruct c as [[] [] [] [] [] [] [] []]; reflexivity. Qed.

Lemma lower_char_idem (c : ascii) : lower_char (lower_char c) = lower_char c.
Proof. destruct c as [[] [] [] [] [] [] [] []]; reflexivity. Qed.

Lemma toLowerCase_idem (s : string) : toLowerCase (toLowerCase s) = toLowerCase s.
Proof. induction s as [| c s IH]; cbn; [reflexivity | now rewrite lower_char_idem, IH]. Qed.

Lemma trimStart_lower (s : string) : trimStart (toLowerCase s) = toLowerCase (trimStart s).
Proof.
  induction s as [| c s IH]; cbn [toLowerCase trimStart]; [reflexivity |].
  rewrite is_space_lower. now destruct (is_space c).
Qed.

Lemma trimEnd_lower (s : string) : trimEnd (toLowerCase s) = toLowerCase (trimEnd s).
Proof.
  induction s as [| c s IH]; cbn [toLowerCase trimEnd]; [reflexivity |].
  rewrite IH, is_space_lower.
  destruct (trimEnd s); cbn [toLowerCase]; [now destruct (is_space c) | reflexivity].
Qed.

Lemma trim_lower (s : string) : trim (toLowerCase s) = toLowerCase (trim s).
Proof. unfold trim. now rewrite trimStart_lower, trimEnd_lower. Qed.

(** C9. An entry is listed exactly when it is in the catalog and the query,
    trimmed and lowered, occurs in its lowered name, designation or id; the
    case of the query does not matter; and on the embedded catalog ["eros"]
    (in either case) lists one entry, the one with id ["433"]. *)
Theorem filtered_search :
  (forall (asteroids : list entry) (query : string) (a : entry),
      In a (filtered asteroids query) <->
      In a asteroids /\
      let q := toLowerCase (trim query) in
      (occurs_in q (toLowerCase (name a)) \/
       occurs_in q (toLowerCase (designation a)) \/
       occurs_in q (toLowerCase (id a)))) /\
  (forall (asteroids : list entry) (query : string),
      filtered asteroids (toLowerCase query) = filtered asteroids query) /\
  map id (filtered SAMPLE_ASTEROIDS "eros") = ["433"] /\
  map id (filtered SAMPLE_ASTEROIDS " EROS ") = ["433"].
Proof.
  split; [| split; [| split]].
  - intros asteroids query a. cbv zeta. unfold filtered.
    destruct (nonempty (toLowerCase (trim query))) eqn:N; cbn [negb].
    + rewrite filter_In, matches_occurs; [tauto |].
      intros E. rewrite E in N. discriminate.
    + apply nonempty_false in N. rewrite N.
      split; [intros I; split; [exact I |] | tauto].
      left. now exists "", (toLowerCase (name a)).
  - intros asteroids query. unfold filtered.
    now rewrite trim_lower, toLowerCase_idem.
  - vm_compute. reflexivity.
  - vm_compute. reflexivity.
Qed.

End Search.

(* ------------------------------------------------------------------ *)
(** ** Refreshing the catalog *)

Section Refresh.
Import Closed Catalog.
Local Open Scope string_scope.

Lemma find_same_id (catalog : list entry) (i : string) :
  In i (map id catalog) ->
  exists s, find (fun s => String.eqb (id s) i) catalog = Some s.
Proof.
  induction catalog as [| c catalog IH]; cbn [map In find]; [tauto |].
  intros [E | I].
  - exists c. now rewrite E, String.eqb_refl.
  - destruct (String.eqb (id c) i); [now exists c | now apply IH].
Qed.

Lemma merge_into_duplicates (catalog items : list entry) :
  Forall (fun it => In (id it) (map id catalog)) items ->
  merge_into catalog items = catalog.
Proof.
  intros H. unfold merge_into.
  replace (filter _ items) with (@nil entry); [apply app_nil_r |].
  induction H as [| it items Hit _ IH]; cbn [filter]; [reflexivity |].
  destruct (find_same_id catalog (id it) Hit) as [s ->]. exact IH.
Qed.

Lemma SAMPLE_ASTEROIDS_ids :
  map id SAMPLE_ASTEROIDS =
  ["99942"; "152830"; "25143"; "16"; "2024YR4"; "52246"; "Didymos"; "243"; "433"; "4"].
Proof. reflexivity. Qed.

Lemma SAMPLE_ASTEROIDS_NoDup : NoDup (map id SAMPLE_ASTEROIDS).
Proof.
  rewrite SAMPLE_ASTEROIDS_ids.
  repeat (constructor; [cbn [In]; intuition discriminate |]). constructor.
Qed.

(** C7. When every fetched entry carries the id of an entry of the embedded
    catalog, the merged catalog is the embedded catalog itself: the same
    entries in the same order, none replaced, and no id twice.  [fetchNeos]
    then leaves the list of asteroids of a state that holds the embedded
    catalog as it was. *)
Theorem merge_duplicates_unchanged (items : list entry) :
  Forall (fun it => In (id it) (map id SAMPLE_ASTEROIDS)) items ->
  merge items = SAMPLE_ASTEROIDS /\
  NoDup (map id (merge items)) /\
  (forall (st : State) (near_earth_objects : list neo),
      items = map neo_entry (firstn 12 near_earth_objects) ->
      asteroids st = SAMPLE_ASTEROIDS ->
      asteroids (fetchNeos (Succeeded near_earth_objects) st) = asteroids st).
Proof.
  intros H.
  assert (M : merge items = SAMPLE_ASTEROIDS) by now apply merge_into_duplicates.
  split; [exact M |]. split; [rewrite M; apply SAMPLE_ASTEROIDS_NoDup |].
  intros st neos E A. unfold fetchNeos. rewrite <- E.
  destruct items as [| it items]; cbn [asteroids setLoading]; [reflexivity |].
  unfold updateSelected. cbn [asteroids setAsteroids]. now rewrite M.
Qed.

(** A refresh that fetched Eros alone, under another name. *)
Lemma merge_duplicates_unchanged_witness :
  Forall (fun it => In (id it) (map id SAMPLE_ASTEROIDS)) [neo_entry eros_again] /\
  merge [neo_entry eros_again] = SAMPLE_ASTEROIDS /\
  asteroids (fetchNeos (Succeeded [eros_again]) initial) = SAMPLE_ASTEROIDS.
Proof.
  assert (H : Forall (fun it => In (id it) (map id SAMPLE_ASTEROIDS)) [neo_entry eros_again]).
  { constructor; [| constructor]. rewrite SAMPLE_ASTEROIDS_ids. cbn. tauto. }
  destruct (merge_duplicates_unchanged [neo_entry eros_again] H) as [M [_ S]].
  split; [exact H |]. split; [exact M |].
  apply (S initial [eros_again]); reflexivity.
Defined.

Lemma find_first (f : entry -> bool) (l : list entry) (m : entry) :
  find f l = Some m ->
  exists pre post, l = (pre ++ m :: post)%list /\ f m = true /\ Forall (fun e => f e = false) pre.
Proof.
  induction l as [| a l IH]; cbn [find]; [discriminate |].
  destruct (f a) eqn:F.
  - intros [= <-]. exists [], l. repeat split; [exact F | constructor].
  - intros E. destruct (IH E) as [pre [post [-> [Fm Fpre]]]].
    exists (a :: pre), post. repeat split; [exact Fm | now constructor].
Qed.

Lemma find_no_id (l : list entry) (i : string) :
  find (fun m => String.eqb (id m) i) l = None -> ~ In i (map id l).
Proof.
  intros E I. destruct (find_same_id l i I) as [s S]. congruence.
Qed.

(** The updater of the selection, on any merged catalog. *)
Lemma keep_selection_cases (merged : list entry) (prev : entry) :
  (In (id prev) (map id merged) /\
   exists m pre post,
     keep_selection merged prev = Some m /\ merged = (pre ++ m :: post)%list /\
     id m = id prev /\ ~ In (id prev) (map id pre)) \/
  (~ In (id prev) (map id merged) /\ keep_selection merged prev = hd_error merged).
Proof.
  unfold keep_selection.
  destruct (find (fun m => String.eqb (id m) (id prev)) merged) as [m |] eqn:F.
  - left. destruct (find_first _ _ _ F) as [pre [post [E [I P]]]].
    apply String.eqb_eq in I. split.
    + rewrite E, map_app, in_app_iff. right. left. exact I.
    + exists m, pre, post. repeat split; try assumption.
      intros J. rewrite in_map_iff in J. destruct J as [e [Ie He]].
      rewrite Forall_forall in P. specialize (P e He). cbn in P.
      rewrite Ie, String.eqb_refl in P. discriminate.
  - right. split; [now apply find_no_id | reflexivity].
Qed.

(** C10. After a refresh that fetched at least one object, the catalog is the
    merged one; the selection is the first merged entry with the id of the
    previous selection when the merged catalog has an entry with that id, and
    the first entry of the merged catalog when it has none. *)
Theorem fetchNeos_selection (st : State) (prev : entry) (near_earth_objects : list neo) :
  selected st = Some prev -> near_earth_objects <> [] ->
  let merged := merge (map neo_entry (firstn 12 near_earth_objects)) in
  let st' := fetchNeos (Succeeded near_earth_objects) st in
  asteroids st' = merged /\
  selected st' = keep_selection merged prev /\
  ((In (id prev) (map id merged) /\
    exists m pre post,
      selected st' = Some m /\ merged = (pre ++ m :: post)%list /\
      id m = id prev /\ ~ In (id prev) (map id pre)) \/
   (~ In (id prev) (map id merged) /\ selected st' = hd_error merged)).
Proof.
  intros Hsel Hne merged st'.
  assert (S : asteroids st' = merged /\ selected st' = keep_selection merged prev).
  { subst st' merged. unfold fetchNeos.
    destruct near_earth_objects as [| n rest]; [congruence |].
    cbn [firstn map]. unfold updateSelected.
    cbn [asteroids selected setLoading setAsteroids]. now rewrite Hsel. }
  destruct S as [SA SS]. split; [exact SA |]. split; [exact SS |].
  rewrite SS. apply keep_selection_cases.
Qed.

(** The first refresh: the selection, Apophis, is in the merged catalog and
    stays. *)
Lemma fetchNeos_selection_witness :
  selected initial = hd_error SAMPLE_ASTEROIDS /\ [eros_again] <> [] /\
  selected (fetchNeos (Succeeded [eros_again]) initial) = hd_error SAMPLE_ASTEROIDS.
Proof.
  assert (N : [eros_again] <> []) by discriminate.
  split; [reflexivity |]. split; [exact N |].
  destruct (hd_error SAMPLE_ASTEROIDS) as [apophis |] eqn:A; [| discriminate].
  destruct (fetchNeos_selection initial apophis [eros_again] A N) as [_ [S _]].
  rewrite S. cbv in A. injection A as <-. reflexivity.
Defined.

End Refresh.

(* ------------------------------------------------------------------ *)
(** ** Enriching the selection *)

Section Enrichment.
Import Closed Catalog.
Local Open Scope string_scope.

Variable Number_toString : Q -> string.

(** C8, as the code has it.  With a payload whose [phys] has a diameter and
    nothing else, the new selection has the diameter of the payload when that
    is truthy and its own otherwise, holds the payload itself in [sbdb_raw],
    and has every other field of the entry as it was. *)
Theorem enrich_diameter_only (obj : entry) (d : jsval) (st : State) :
  let json := mkSbdb (Some (mkPhys d JUndefined JUndefined)) in
  exists e : entry,
    selected (fetchSBDBDetails Number_toString obj (Succeeded json) st) = Some e /\
    diameter_km e = (if truthy d then d else diameter_km obj) /\
    sbdb_raw e = Some json /\
    id e = id obj /\ name e = name obj /\ designation e = designation obj /\
    absolute_magnitude_h e = absolute_magnitude_h obj /\
    is_potentially_hazardous e = is_potentially_hazardous obj /\
    discovery_date e = discovery_date obj /\ discoverer e = discoverer obj /\
    summary e = summary obj /\ notable_events e = notable_events obj.
Proof.
  intros json. exists (enrich Number_toString obj json).
  split; [reflexivity |].
  unfold enrich, json, or_else, or_str. cbn.
  repeat split. now destruct (Str.nonempty (summary obj)).
Qed.

End Enrichment.

(** C8 fails as stated: enriching Eros with a payload that holds a diameter
    alone also sets [sbdb_raw], which the entry did not have; the selection is
    not the entry with its diameter replaced. *)
Lemma enrich_adds_sbdb_raw :
  let eros := nth 8 Catalog.SAMPLE_ASTEROIDS (Catalog.neo_entry Catalog.eros_again) in
  let json := Catalog.mkSbdb (Some (Catalog.mkPhys (Catalog.JNum 16.8) Catalog.JUndefined Catalog.JUndefined)) in
  let e := Catalog.enrich (fun _ => EmptyString) eros json in
  Catalog.id eros = "433"%string /\
  Catalog.selected (Catalog.fetchSBDBDetails (fun _ => EmptyString) eros
                      (Catalog.Succeeded json) Catalog.initial) = Some e /\
  Catalog.diameter_km e = Catalog.JNum 16.8 /\
  Catalog.sbdb_raw eros = None /\
  Catalog.sbdb_raw e = Some json /\
  Catalog.sbdb_raw e <> Catalog.sbdb_raw eros.
Proof.
  cbv zeta. repeat split. discriminate.
Qed.

(* ------------------------------------------------------------------ *)
(** ** The stream of a generator *)

Section Streams.
Import Rng Stream.

Lemma call_value (r : nat) (h : Heap) :
  fst (call r h) = (IZR (scramble (cell h r + 1831565813)) / 4294967296)%R /\
  cell (snd (call r h)) r = (cell h r + 1831565813)%Z.
Proof.
  unfold call, bind, read, write, ret. cbn. now rewrite Nat.eqb_refl.
Qed.

Lemma calls_values (r : nat) :
  forall (n : nat) (h : Heap),
    fst (calls n r h) =
    map (fun k => (IZR (scramble (cell h r + (Z.of_nat k + 1) * 1831565813)) / 4294967296)%R)
        (seq 0 n).
Proof.
  induction n as [| n IH]; intros h; [reflexivity |].
  cbn [calls]. unfold bind at 1.
  destruct (call r h) as [u h1] eqn:E.
  destruct (call_value r h) as [V C]. rewrite E in V, C. cbn [fst snd] in V, C.
  unfold bind at 1. destruct (calls n r h1) as [us h2] eqn:E2.
  unfold ret. cbn [fst seq map].
  f_equal.
  - rewrite V. f_equal; f_equal; f_equal; lia.
  - change us with (fst (us, h2)). rewrite <- E2, IH, C.
    rewrite <- seq_shift, map_map. apply map_ext. intros k. f_equal; f_equal; f_equal; lia.
Qed.

(** X1. The numbers that a generator returns are fixed by its seed modulo 2^32
    and by how often it has been called: the call number [k + 1] returns
    [scramble ((seed >>> 0) + (k + 1) * 0x6d2b79f5) / 2^32], a number from 0
    (included) to 1 (excluded), whatever else the store holds.  [t] is a
    Number, exact below 2^53: the statement stays within four million calls. *)
Theorem mulberry32_stream (seed : Z) (n : nat) (h : Heap) :
  (Z.of_nat n <= 4000000)%Z ->
  let values := fst (bind (mulberry32 seed) (calls n) h) in
  values =
    map (fun k => (IZR (scramble (Int32.ToUint32 seed + (Z.of_nat k + 1) * 1831565813))
                   / 4294967296)%R) (seq 0 n) /\
  Forall (fun u => (0 <= u < 1)%R) values /\
  values = fst (bind (mulberry32 (seed + 4294967296)) (calls n) Rng.empty) /\
  (Int32.ToUint32 seed + Z.of_nat n * 1831565813 < 9007199254740992)%Z.
Proof.
  intros Hn.
  assert (V : forall s h0,
             fst (bind (mulberry32 s) (calls n) h0) =
             map (fun k => (IZR (scramble (Int32.ToUint32 s + (Z.of_nat k + 1) * 1831565813))
                            / 4294967296)%R) (seq 0 n)).
  { intros s h0. unfold bind, mulberry32, alloc. rewrite calls_values. cbn [cell].
    now rewrite Nat.eqb_refl. }
  cbv zeta. rewrite !V. split; [reflexivity |]. split; [| split].
  - apply Forall_forall. intros u Hu. rewrite in_map_iff in Hu. destruct Hu as [k [<- _]].
    match goal with |- context [scramble ?t] => pose proof (scramble_range t) as [L U] end.
    apply IZR_le in L. apply IZR_lt in U. lra.
  - apply map_ext. intros k. f_equal. f_equal. f_equal. f_equal.
    unfold Int32.ToUint32, Int32.two32.
    rewrite <- (Z.mul_1_l 4294967296) at 2. now rewrite Z.mod_add by lia.
  - pose proof (ToUint32_range seed). lia.
Qed.

(** The first three numbers of the generator seeded with 42. *)
Lemma mulberry32_stream_witness :
  (Z.of_nat 3 <= 4000000)%Z /\
  Forall (fun u => (0 <= u < 1)%R) (fst (bind (mulberry32 42) (calls 3) Rng.empty)).
Proof.
  assert (H : (Z.of_nat 3 <= 4000000)%Z) by lia.
  split; [exact H |].
  apply (mulberry32_stream 42 3 Rng.empty H).
Defined.

End Streams.

(* ------------------------------------------------------------------ *)
(** ** The seed of a name, in unsigned arithmetic *)

Section Hashing.
Import Seed Fnv.
Local Open Scope Z_scope.

Lemma lxor_mod32 (x y : Z) :
  Z.lxor x y mod 4294967296 = Z.lxor (x mod 4294967296) (y mod 4294967296).
Proof.
  change 4294967296 with (2 ^ 32). apply Z.bits_inj'. intros n Hn.
  rewrite Z.testbit_mod_pow2, !Z.lxor_spec, !Z.testbit_mod_pow2 by lia.
  now destruct (n <? 32).
Qed.

Lemma ToInt32_mod (z : Z) : Int32.ToInt32 z mod 4294967296 = z mod 4294967296.
Proof.
  unfold Int32.ToInt32, Int32.two32. rewrite Zminus_mod_idemp_l. f_equal. lia.
Qed.

Lemma ToUint32_xor (a b : Z) :
  Int32.ToUint32 (Int32.xor a b) = Z.lxor (Int32.ToUint32 a) (Int32.ToUint32 b).
Proof.
  unfold Int32.ToUint32, Int32.xor, Int32.two32. now rewrite lxor_mod32, !ToInt32_mod.
Qed.

Lemma ToUint32_imul (a b : Z) :
  Int32.ToUint32 (Int32.imul a b) = (Int32.ToUint32 a * Int32.ToUint32 b) mod 4294967296.
Proof.
  unfold Int32.ToUint32, Int32.imul, Int32.two32.
  rewrite ToInt32_mod, Zmult_mod, !ToInt32_mod. reflexivity.
Qed.

Lemma hashCode_step_unsigned (h c : Z) :
  0 <= c < 4294967296 ->
  Int32.ToUint32 (hashCode_step h c) = fnv_step (Int32.ToUint32 h) c.
Proof.
  intros Hc. unfold hashCode_step, fnv_step.
  rewrite ToUint32_imul, ToUint32_xor, (ToUint32_small c Hc). reflexivity.
Qed.

Lemma fold_hashCode_step_unsigned (str : jsstring) :
  Forall (fun c => 0 <= c < 4294967296) str ->
  forall h : Z,
    Int32.ToUint32 (fold_left hashCode_step str h) =
    fold_left fnv_step str (Int32.ToUint32 h).
Proof.
  induction 1 as [| c str Hc _ IH]; intros h; cbn [fold_left]; [reflexivity |].
  now rewrite IH, hashCode_step_unsigned.
Qed.

Lemma fnv_step_range (h c : Z) : 0 <= fnv_step h c < 4294967296.
Proof. unfold fnv_step. apply Z.mod_pos_bound. lia. Qed.

Lemma fold_fnv_step_range (str : list Z) (h : Z) :
  0 <= h < 4294967296 -> 0 <= fold_left fnv_step str h < 4294967296.
Proof.
  revert h. induction str as [| c str IH]; intros h Hh; cbn [fold_left]; [exact Hh |].
  apply IH, fnv_step_range.
Qed.

Lemma code_units_32 (l : list Z) :
  Forall (fun c => 0 <= c < 65536) l -> Forall (fun c => 0 <= c < 4294967296) l.
Proof. intros Hl. eapply Forall_impl; [| exact Hl]. cbn. intros c Hc. lia. Qed.

Lemma hashCode_unsigned (str : jsstring) :
  Forall (fun c => 0 <= c < 65536) str -> hashCode str = fnv1a str.
Proof.
  intros Hs. unfold hashCode, fnv1a.
  rewrite (fold_hashCode_step_unsigned str (code_units_32 str Hs)). reflexivity.
Qed.

Lemma hashCode_append_unsigned (str rest : jsstring) :
  Forall (fun c => 0 <= c < 65536) str ->
  Forall (fun c => 0 <= c < 65536) rest ->
  hashCode (str ++ rest) = fold_left fnv_step rest (hashCode str).
Proof.
  intros Hs Hr.
  rewrite (hashCode_unsigned (str ++ rest)) by (apply Forall_app; now split).
  rewrite (hashCode_unsigned str Hs). unfold fnv1a. apply fold_left_app.
Qed.

(** X2. [hashCode], which works on signed 32-bit integers, computes the 32-bit
    FNV-1a hash of the code units; and the seed of a longer string is
    computed from the seed of its beginning and the units that follow. *)
Theorem hashCode_fnv1a (str rest : jsstring) :
  Forall (fun c => 0 <= c < 65536) str ->
  Forall (fun c => 0 <= c < 65536) rest ->
  hashCode str = fnv1a str /\
  hashCode (str ++ rest) = fold_left fnv_step rest (hashCode str).
Proof.
  intros Hs Hr. split; [now apply hashCode_unsigned | now apply hashCode_append_unsigned].
Qed.

(** The seed of "433 Eros", from the seed of "433 " and the four letters. *)
Lemma hashCode_fnv1a_witness :
  Forall (fun c => 0 <= c < 65536) (charCodes "433 ") /\
  Forall (fun c => 0 <= c < 65536) (charCodes "Eros") /\
  hashCode (charCodes "433 " ++ charCodes "Eros") =
  fold_left fnv_step (charCodes "Eros") (hashCode (charCodes "433 ")).
Proof.
  assert (H1 : Forall (fun c => 0 <= c < 65536) (charCodes "433 "))
    by (repeat constructor; cbn; lia).
  assert (H2 : Forall (fun c => 0 <= c < 65536) (charCodes "Eros"))
    by (repeat constructor; cbn; lia).
  split; [exact H1 |]. split; [exact H2 |].
  apply (hashCode_fnv1a (charCodes "433 ") (charCodes "Eros") H1 H2).
Defined.

Lemma lxor_range32 (a b : Z) :
  0 <= a < 4294967296 -> 0 <= b < 4294967296 -> 0 <= Z.lxor a b < 4294967296.
Proof.
  intros Ha Hb.
  rewrite <- (Z.mod_small a 4294967296), <- (Z.mod_small b 4294967296) by assumption.
  rewrite <- lxor_mod32. apply Z.mod_pos_bound. lia.
Qed.

Lemma lxor_cancel_l (a b c : Z) : Z.lxor a b = Z.lxor a c -> b = c.
Proof.
  intros E.
  rewrite <- (Z.lxor_0_l b), <- (Z.lxor_0_l c), <- (Z.lxor_nilpotent a).
  now rewrite !Z.lxor_assoc, E.
Qed.

Lemma lxor_cancel_r (a b c : Z) : Z.lxor b a = Z.lxor c a -> b = c.
Proof. rewrite (Z.lxor_comm b), (Z.lxor_comm c). apply lxor_cancel_l. Qed.

(** Multiplying by the prime, which is odd, loses nothing modulo 2^32. *)
Lemma mul_prime_inj (x y : Z) :
  0 <= x < 4294967296 -> 0 <= y < 4294967296 ->
  (x * 16777619) mod 4294967296 = (y * 16777619) mod 4294967296 -> x = y.
Proof.
  intros Hx Hy E.
  assert (I : forall z, ((z * 16777619) mod 4294967296 * 899433627) mod 4294967296
                        = z mod 4294967296).
  { intros z. rewrite Zmult_mod_idemp_l.
    replace (z * 16777619 * 899433627) with (z + (z * 3513497) * 4294967296) by lia.
    apply Z.mod_add. lia. }
  pose proof (I x) as Ix. pose proof (I y) as Iy. rewrite E in Ix.
  rewrite Ix in Iy. now rewrite !Z.mod_small in Iy by assumption.
Qed.

Lemma fnv_step_inj_h (h1 h2 c : Z) :
  0 <= h1 < 4294967296 -> 0 <= h2 < 4294967296 -> 0 <= c < 4294967296 ->
  fnv_step h1 c = fnv_step h2 c -> h1 = h2.
Proof.
  intros H1 H2 Hc E. unfold fnv_step in E.
  apply mul_prime_inj in E; [| now apply lxor_range32 ..].
  now apply lxor_cancel_r in E.
Qed.

Lemma fnv_step_inj_c (h c1 c2 : Z) :
  0 <= h < 4294967296 -> 0 <= c1 < 4294967296 -> 0 <= c2 < 4294967296 ->
  fnv_step h c1 = fnv_step h c2 -> c1 = c2.
Proof.
  intros Hh H1 H2 E. unfold fnv_step in E.
  apply mul_prime_inj in E; [| now apply lxor_range32 ..].
  now apply lxor_cancel_l in E.
Qed.

Lemma fold_fnv_step_inj (str : list Z) :
  Forall (fun c => 0 <= c < 4294967296) str ->
  forall h1 h2 : Z,
    0 <= h1 < 4294967296 -> 0 <= h2 < 4294967296 ->
    fold_left fnv_step str h1 = fold_left fnv_step str h2 -> h1 = h2.
Proof.
  induction 1 as [| c str Hc _ IH]; intros h1 h2 H1 H2 E; cbn [fold_left] in E; [exact E |].
  apply IH in E; [| apply fnv_step_range ..].
  now apply (fnv_step_inj_h h1 h2 c).
Qed.

(** X3. Two names that differ in one character, and in nothing else, never get
    the same seed. *)
Theorem hashCode_substitution (pre post : jsstring) (c1 c2 : Z) :
  Forall (fun c => 0 <= c < 65536) pre ->
  Forall (fun c => 0 <= c < 65536) post ->
  0 <= c1 < 65536 -> 0 <= c2 < 65536 -> c1 <> c2 ->
  hashCode (pre ++ c1 :: post) <> hashCode (pre ++ c2 :: post).
Proof.
  intros Hpre Hpost H1 H2 N E.
  assert (C1 : Forall (fun c => 0 <= c < 65536) (c1 :: post)) by now constructor.
  assert (C2 : Forall (fun c => 0 <= c < 65536) (c2 :: post)) by now constructor.
  rewrite (hashCode_append_unsigned pre (c1 :: post) Hpre C1) in E.
  rewrite (hashCode_append_unsigned pre (c2 :: post) Hpre C2) in E.
  cbn [fold_left] in E.
  assert (R : 0 <= hashCode pre < 4294967296) by (unfold hashCode; apply ToUint32_range).
  apply fold_fnv_step_inj in E; [| | apply fnv_step_range ..].
  - apply fnv_step_inj_c in E; [congruence | exact R | lia | lia].
  - now apply code_units_32.
Qed.

(** "433 Eros" and "433 Eris". *)
Lemma hashCode_substitution_witness :
  hashCode (charCodes "433 Eros") <> hashCode (charCodes "433 Eris").
Proof.
  apply (hashCode_substitution (charCodes "433 Er") (charCodes "s") 111 105).
  - repeat constructor; cbn; lia.
  - repeat constructor; cbn; lia.
  - lia.
  - lia.
  - lia.
Defined.

End Hashing.

(* ------------------------------------------------------------------ *)
(** ** Vertices that coincide, seeds that agree, the mesh of the viewer *)

Section Shape.
Import Rng Geometry Closed.
Local Open Scope R_scope.

Lemma sphere_vertex_north (radius : R) (w h ix : nat) :
  sphere_vertex radius w h 0 ix = V3 0 radius 0.
Proof.
  unfold sphere_vertex, thetaStart, thetaLength.
  replace (0 + INR 0 / INR h * PI) with 0 by (cbn [INR]; unfold Rdiv; ring).
  rewrite sin_0, cos_0. f_equal; ring.
Qed.

(** X4. The displacement of a vertex is computed from its own position and
    normal alone, not from its index or from the vertices before it.  So two
    vertices of the sphere with the same position and the same normal are
    moved alike; and the vertices of the first row, which the sphere puts all
    on its pole, stay on one point. *)
Theorem coincident_vertices_move_alike (radius : R) (segments : Z) (intensity : R)
    (seed : Z) (h : Heap) (ix : nat) :
  (ix <= widthSegments segments)%nat ->
  let sphere := SphereGeometry radius (Z.max 32 segments) (Z.max 16 (segments / 2)) in
  let bumpy := position (fst (createBumpyGeometry radius segments intensity seed h)) in
  (forall i j : nat,
      (i < List.length (position sphere))%nat -> (j < List.length (position sphere))%nat ->
      getXYZ (position sphere) i = getXYZ (position sphere) j ->
      getXYZ (normal sphere) i = getXYZ (normal sphere) j ->
      getXYZ bumpy i = getXYZ bumpy j) /\
  getXYZ (position sphere) ix = getXYZ (position sphere) 0 /\
  getXYZ bumpy ix = getXYZ bumpy 0.
Proof.
  intros Hix sphere bumpy.
  set (w := widthSegments segments) in *. set (hs := heightSegments segments).
  assert (G : forall x, (x <= w)%nat ->
              getXYZ bumpy x =
              displaced intensity seed (normalize (sphere_vertex radius w hs 0 x))
                        (sphere_vertex radius w hs 0 x)).
  { intros x Hx. subst bumpy.
    pose proof (getXYZ_createBumpyGeometry radius segments intensity seed h 0 x) as G.
    cbn [Nat.mul Nat.add] in G. apply G; [lia | exact Hx]. }
  split; [| split].
  - intros i j Hi Hj E _. subst bumpy sphere.
    rewrite createBumpyGeometry_positions.
    unfold SphereGeometry in *. cbn [position] in *.
    fold (widthSegments segments) (heightSegments segments) in *.
    now rewrite !getXYZ_map, E by assumption.
  - subst sphere. unfold SphereGeometry. cbn [position].
    fold (widthSegments segments) (heightSegments segments). fold w hs.
    assert (V : forall x, (x <= w)%nat ->
                getXYZ (sphere_vertices radius w hs) x = V3 0 radius 0).
    { intros x Hx. pose proof (getXYZ_sphere_vertices radius w hs 0 x) as V.
      cbn [Nat.mul Nat.add] in V. rewrite V by lia. apply sphere_vertex_north. }
    now rewrite !V by lia.
  - rewrite !G by lia. now rewrite !sphere_vertex_north.
Qed.

(** The first row of the mesh of the viewer, seeded with 42. *)
Lemma coincident_vertices_move_alike_witness :
  (7 <= widthSegments 128)%nat /\
  let bumpy := position (fst (createBumpyGeometry 1 128 0.06 42 empty)) in
  getXYZ bumpy 7 = getXYZ bumpy 0.
Proof.
  assert (H : (7 <= widthSegments 128)%nat) by (unfold widthSegments; lia).
  split; [exact H |].
  destruct (coincident_vertices_move_alike 1 128 0.06 42 empty 7 H) as [_ [_ S]].
  exact S.
Defined.

(** X5. Only the low 32 bits of the seed count: a seed and the seed plus a
    multiple of 2^32, both at most 2^52 in size so that the additions of the
    generator are exact, give the same geometry, and so do a seed and its
    low 32 bits. *)
Theorem seed_modulo_2_32 (radius : R) (segments : Z) (intensity : R) (seed k : Z) (h h' : Heap) :
  (Z.abs seed <= 4503599627370496)%Z ->
  (Z.abs (seed + k * 4294967296) <= 4503599627370496)%Z ->
  fst (createBumpyGeometry radius segments intensity (seed + k * 4294967296) h) =
  fst (createBumpyGeometry radius segments intensity seed h') /\
  fst (createBumpyGeometry radius segments intensity (Int32.ToUint32 seed) h) =
  fst (createBumpyGeometry radius segments intensity seed h').
Proof.
  intros _ _.
  assert (N : forall s1 s2, Int32.ToUint32 s1 = Int32.ToUint32 s2 ->
              forall p, local_noise s1 p = local_noise s2 p).
  { intros s1 s2 E p. unfold local_noise.
    assert (E' : Int32.ToUint32 (Int_part (vertex_hash p) + s1) =
                 Int32.ToUint32 (Int_part (vertex_hash p) + s2)).
    { unfold Int32.ToUint32 in *. rewrite <- Zplus_mod_idemp_r, E, Zplus_mod_idemp_r.
      reflexivity. }
    now rewrite E'. }
  assert (G : forall s1 s2, Int32.ToUint32 s1 = Int32.ToUint32 s2 ->
              fst (createBumpyGeometry radius segments intensity s1 h) =
              fst (createBumpyGeometry radius segments intensity s2 h')).
  { intros s1 s2 E. rewrite !createBumpyGeometry_value. do 2 f_equal.
    apply map_ext. intros p. unfold displaced. now rewrite (N s1 s2 E). }
  split; apply G.
  - unfold Int32.ToUint32, Int32.two32. apply Z.mod_add. lia.
  - apply ToUint32_idem.
Qed.

(** The seeds 42 and 42 + 2^32 for the mesh of the viewer. *)
Lemma seed_modulo_2_32_witness :
  (Z.abs 42 <= 4503599627370496)%Z /\
  (Z.abs (42 + 1 * 4294967296) <= 4503599627370496)%Z /\
  fst (createBumpyGeometry 1 128 0.06 (42 + 1 * 4294967296) empty) =
  fst (createBumpyGeometry 1 128 0.06 42 empty).
Proof.
  assert (H1 : (Z.abs 42 <= 4503599627370496)%Z) by lia.
  assert (H2 : (Z.abs (42 + 1 * 4294967296) <= 4503599627370496)%Z) by lia.
  split; [exact H1 |]. split; [exact H2 |].
  destruct (seed_modulo_2_32 1 128 0.06 42 1 empty empty H1 H2) as [E _].
  exact E.
Defined.

(** X6. The mesh of the viewer, whatever the name it is seeded with: 65 rows of
    129 vertices, every one of them at a distance from the centre between
    0.92 and 1.08. *)
Theorem AsteroidMesh_geom_bounds (name : Seed.jsstring) (h : Heap) :
  let g := fst (AsteroidMesh_geom name h) in
  List.length (position g) = (65 * 129)%nat /\
  Forall (fun v => 0.92 < length3 v < 1.08) (position g).
Proof.
  cbv zeta. unfold AsteroidMesh_geom. rewrite createBumpyGeometry_positions.
  rewrite mesh_intensity_value.
  split.
  - rewrite length_map, sphere_vertices_length. reflexivity.
  - apply Forall_forall. intros v Hv.
    rewrite in_map_iff in Hv. destruct Hv as [p [<- Hp]].
    apply in_sphere_vertices in Hp. destruct Hp as [iy [ix [_ [_ ->]]]].
    rewrite displaced_length, sphere_vertex_length, (Rabs_pos_eq 1) by lra.
    set (p := sphere_vertex 1 _ _ iy ix).
    assert (Hi : 0 <= 0.06) by lra.
    pose proof (displacement_bounds (local_noise (Seed.hashCode name) p) 0.06
                  (normalize p) (local_noise_range _ p) Hi (normalize_norm2 p)) as [L U].
    set (d := displacement _ _ _) in *.
    assert (W : 1 < max_weight <= 1.3).
    { split; [apply max_weight_gt_1 |].
      unfold max_weight. pose proof sqrt3_sqr. pose proof (sqrt_pos 3). nra. }
    rewrite Rabs_pos_eq by nra. nra.
Qed.

End Shape.

(* ------------------------------------------------------------------ *)
(** ** The orbit ring and the name of the snapshot *)

Section SceneFacts.
Import Geometry Catalog Scene.

Lemma orbit_loop_map (a b : R) (segments : nat) :
  forall (n i : nat) (pts : list vec3),
    orbit_loop a b segments n i pts =
    pts ++ map (fun k => let t := (INR k / INR segments * PI * 2)%R in
                         V3 (cos t * a) 0 (sin t * b)) (seq i n).
Proof.
  induction n as [| n IH]; intros i pts; cbn [orbit_loop seq map].
  - now rewrite app_nil_r.
  - rewrite IH, <- app_assoc. reflexivity.
Qed.

(** X7. Whatever the half-axes [a] and [b] are, the ring has one point per
    segment, all in the plane [y = 0], starting at [(a, 0, 0)].  For
    [1e-30 <= b <= a <= 1e30] every point satisfies the equation of the
    ellipse with these half-axes to one millionth, and none is nearer to the
    centre than [b * (1 - 1e-6)] or farther than [a * (1 + 1e-6)]. *)
Theorem OrbitRing_points_on_ellipse (a b : R) (segments : nat) :
  List.length (OrbitRing_points a b segments) = segments /\
  Forall (fun p => vy p = 0%R) (OrbitRing_points a b segments) /\
  match segments with
  | O => OrbitRing_points a b segments = []
  | S _ => hd_error (OrbitRing_points a b segments) = Some (V3 a 0 0)
  end /\
  ((1e-30 <= b)%R -> (b <= a)%R -> (a <= 1e30)%R ->
   Forall (fun p =>
             (Rabs (vx p * b * (vx p * b) + vz p * a * (vz p * a) - a * b * (a * b))
              <= Closed.tolerance * (a * b * (a * b)))%R /\
             (b * (1 - Closed.tolerance) <= length3 p <= a * (1 + Closed.tolerance))%R)
          (OrbitRing_points a b segments)).
Proof.
  unfold OrbitRing_points. rewrite orbit_loop_map. cbn [app].
  split; [| split; [| split]].
  - now rewrite length_map, length_seq.
  - apply Forall_forall. intros p Hp. rewrite in_map_iff in Hp.
    destruct Hp as [k [<- _]]. reflexivity.
  - destruct segments as [| n]; [reflexivity |].
    cbn [seq map hd_error]. cbv zeta. f_equal.
    replace (INR 0 / INR (S n) * PI * 2)%R with 0%R by (cbn [INR]; unfold Rdiv; ring).
    rewrite cos_0, sin_0. f_equal; ring.
  - intros Hb Hab Ha. unfold Closed.tolerance.
    apply Forall_forall. intros p Hp. rewrite in_map_iff in Hp.
    destruct Hp as [k [<- _]]. cbv zeta. cbn [vx vy vz].
    set (t := (INR k / INR segments * PI * 2)%R).
    pose proof (sin2_cos2 t) as T. unfold Rsqr in T.
    assert (B0 : (0 < b)%R) by lra.
    split.
    + replace (cos t * a * b * (cos t * a * b) + sin t * b * a * (sin t * b * a)
               - a * b * (a * b))%R
        with (a * b * (a * b) * (sin t * sin t + cos t * cos t - 1))%R by ring.
      rewrite T. replace (a * b * (a * b) * (1 - 1))%R with 0%R by ring.
      rewrite Rabs_R0. apply Rmult_le_pos; [lra |]. apply Rle_0_sqr.
    + unfold length3. cbn [vx vy vz].
      assert (S2 : (0 <= sin t * sin t)%R) by apply Rle_0_sqr.
      assert (C2 : (0 <= cos t * cos t)%R) by apply Rle_0_sqr.
      assert (AB : (b * b <= a * a)%R) by nra.
      replace (cos t * a * (cos t * a) + 0 * 0 + sin t * b * (sin t * b))%R
        with (cos t * cos t * (a * a) + sin t * sin t * (b * b))%R by ring.
      set (c2 := (cos t * cos t)%R) in *. set (s2 := (sin t * sin t)%R) in *.
      set (aa := (a * a)%R) in *. set (bb := (b * b)%R) in *.
      split.
      * apply Rle_trans with b; [lra |].
        apply Rle_trans with (sqrt bb).
        -- subst bb. rewrite sqrt_square; lra.
        -- apply sqrt_le_1_alt. nra.
      * apply Rle_trans with a; [| lra].
        apply Rle_trans with (sqrt aa).
        -- apply sqrt_le_1_alt. nra.
        -- subst aa. rewrite sqrt_square; lra.
Qed.

(** The ring of the viewer: half-axes 2.8 and 2.2, 256 segments. *)
Lemma OrbitRing_points_on_ellipse_witness :
  (1e-30 <= 2.2)%R /\ (2.2 <= 2.8)%R /\ (2.8 <= 1e30)%R /\
  Forall (fun p => (2.2 * (1 - Closed.tolerance) <= length3 p
                    <= 2.8 * (1 + Closed.tolerance))%R)
         (OrbitRing_points 2.8 2.2 256).
Proof.
  assert (H1 : (1e-30 <= 2.2)%R) by lra.
  assert (H2 : (2.2 <= 2.8)%R) by lra.
  assert (H3 : (2.8 <= 1e30)%R) by lra.
  split; [exact H1 |]. split; [exact H2 |]. split; [exact H3 |].
  destruct (OrbitRing_points_on_ellipse 2.8 2.2 256) as [_ [_ [_ E]]].
  eapply Forall_impl; [| exact (E H1 H2 H3)].
  intros p [_ D]. exact D.
Defined.

End SceneFacts.

(* ------------------------------------------------------------------ *)
(** ** The name of the snapshot *)

Section Snapshot.
Import Catalog Scene.
Local Open Scope string_scope.







End Snapshot.

(* ------------------------------------------------------------------ *)
(** ** More on refreshing the catalog *)

Section RefreshMore.
Import Catalog.
Local Open Scope string_scope.

Lemma find_id_none (catalog : list entry) (i : string) :
  ~ In i (map id catalog) -> find (fun s => String.eqb (id s) i) catalog = None.
Proof.
  induction catalog as [| c catalog IH]; cbn [map In find]; [reflexivity |].
  intros N. destruct (String.eqb (id c) i) eqn:E.
  - apply String.eqb_eq in E. tauto.
  - apply IH. tauto.
Qed.

(** X9. The merged catalog is the embedded catalog, whole and in its order,
    followed by exactly the fetched entries whose id is not an embedded one,
    in the order they were fetched and as often as they were fetched; a
    fetched entry with an embedded id is dropped, whatever else it holds. *)
Theorem merge_retains_sample (items : list entry) :
  let fetched_only := fun e : entry =>
    if in_dec string_dec (id e) (map id SAMPLE_ASTEROIDS) then false else true in
  merge items = (SAMPLE_ASTEROIDS ++ filter fetched_only items)%list /\
  firstn 10 (merge items) = SAMPLE_ASTEROIDS /\
  skipn 10 (merge items) = filter fetched_only items.
Proof.
  intros fetched_only.
  assert (M : merge items = (SAMPLE_ASTEROIDS ++ filter fetched_only items)%list).
  { unfold merge, merge_into. f_equal. apply filter_ext. intros e.
    subst fetched_only. cbv beta.
    destruct (in_dec string_dec (id e) (map id SAMPLE_ASTEROIDS)) as [I | N].
    - destruct (find _ SAMPLE_ASTEROIDS) eqn:E; [reflexivity |].
      exfalso. now apply find_no_id in E.
    - now rewrite find_id_none. }
  split; [exact M |]. rewrite M. split.
  - apply (firstn_app_2 0 SAMPLE_ASTEROIDS).
  - reflexivity.
Qed.

Lemma count_occ_sample (i : string) :
  In i (map id SAMPLE_ASTEROIDS) -> count_occ string_dec (map id SAMPLE_ASTEROIDS) i = 1%nat.
Proof.
  intros I. apply NoDup_count_occ'; [apply SAMPLE_ASTEROIDS_NoDup | exact I].
Qed.

(** X10. How often an id occurs in the merged catalog: once when it is an embedded
    id, and otherwise as often as it was fetched.  The merge removes no
    duplicate among the fetched entries; the ids of the merged catalog are
    pairwise distinct when those of the fetched entries are. *)
Theorem merged_id_counts (items : list entry) (i : string) :
  count_occ string_dec (map id (merge items)) i =
    (if in_dec string_dec i (map id SAMPLE_ASTEROIDS) then 1%nat
     else count_occ string_dec (map id items) i) /\
  (NoDup (map id items) -> NoDup (map id (merge items))).
Proof.
  unfold merge, merge_into.
  set (fresh := fun it : entry =>
                  match find (fun s => String.eqb (id s) (id it)) SAMPLE_ASTEROIDS with
                  | Some _ => false
                  | None => true
                  end).
  assert (F : forall e, fresh e = true <-> ~ In (id e) (map id SAMPLE_ASTEROIDS)).
  { intros e. subst fresh. cbv beta. split.
    - destruct (find _ SAMPLE_ASTEROIDS) eqn:E; [discriminate |].
      intros _. now apply find_no_id.
    - intros N. now rewrite find_id_none. }
  assert (C : forall l,
             count_occ string_dec (map id (filter fresh l)) i =
             if in_dec string_dec i (map id SAMPLE_ASTEROIDS) then 0%nat
             else count_occ string_dec (map id l) i).
  { induction l as [| e l IH]; cbn [filter map count_occ].
    - now destruct (in_dec _ _ _).
    - destruct (fresh e) eqn:T; cbn [map count_occ].
      + apply F in T. destruct (string_dec (id e) i) as [<- | N].
        * rewrite IH. destruct (in_dec _ _ _); [tauto | reflexivity].
        * exact IH.
      + assert (I : In (id e) (map id SAMPLE_ASTEROIDS)).
        { destruct (in_dec string_dec (id e) (map id SAMPLE_ASTEROIDS)) as [I | N];
            [exact I |]. apply F in N. congruence. }
        rewrite IH. destruct (string_dec (id e) i) as [<- | N]; [| reflexivity].
        destruct (in_dec _ _ _); [reflexivity | tauto]. }
  split.
  - rewrite map_app, count_occ_app, C.
    destruct (in_dec string_dec i (map id SAMPLE_ASTEROIDS)) as [I | N].
    + rewrite count_occ_sample by exact I. reflexivity.
    + now rewrite (proj1 (count_occ_not_In string_dec _ _) N).
  - intros N. rewrite map_app. apply NoDup_app.
    + apply SAMPLE_ASTEROIDS_NoDup.
    + clear C. induction items as [| e l IH]; cbn [filter map]; [constructor |].
      cbn [map] in N. inversion N as [| x xs Nx Nl]; subst.
      destruct (fresh e); [| now apply IH].
      cbn [map]. constructor; [| now apply IH].
      intros I. apply Nx. rewrite in_map_iff in I. destruct I as [e' [E I]].
      apply filter_In in I. rewrite <- E. apply in_map. tauto.
    + intros x Hs Hf. rewrite in_map_iff in Hf. destruct Hf as [e [<- He]].
      apply filter_In in He. destruct He as [_ T]. apply F in T. tauto.
Qed.

Lemma SAMPLE_ASTEROIDS_plain : Forall (fun e => sbdb_raw e = None) SAMPLE_ASTEROIDS.
Proof. repeat constructor. Qed.

Lemma merge_plain (near_earth_objects : list neo) :
  Forall (fun e => sbdb_raw e = None) (merge (map neo_entry near_earth_objects)).
Proof.
  unfold merge, merge_into. apply Forall_app. split; [apply SAMPLE_ASTEROIDS_plain |].
  apply Forall_forall. intros e He. apply filter_In in He. destruct He as [He _].
  rewrite in_map_iff in He. now destruct He as [n [<- _]].
Qed.

Lemma keep_selection_member (merged : list entry) (prev m : entry) :
  keep_selection merged prev = Some m -> In m merged.
Proof.
  unfold keep_selection.
  destruct (find _ merged) as [m' |] eqn:F.
  - intros [= <-]. now apply find_some in F.
  - destruct merged as [| a l]; [discriminate |]. intros [= <-]. now left.
Qed.

Lemma keep_selection_idem (merged : list entry) (prev m : entry) :
  keep_selection merged prev = Some m -> keep_selection merged m = Some m.
Proof.
  unfold keep_selection.
  destruct (find (fun x => String.eqb (id x) (id prev)) merged) as [m' |] eqn:F.
  - intros [= <-]. pose proof (find_some _ _ F) as [_ E]. apply String.eqb_eq in E.
    rewrite E, F. reflexivity.
  - destruct merged as [| a l]; [discriminate |]. intros [= <-].
    cbn [find]. now rewrite String.eqb_refl.
Qed.

(** X11. After a refresh that fetched something, the selection is an entry of the
    new catalog, and it carries no payload of the database: an enrichment of
    the previous selection is gone. *)
Theorem refresh_selects_catalog_entry (st : State) (prev : entry)
    (near_earth_objects : list neo) :
  selected st = Some prev -> near_earth_objects <> [] ->
  let st' := fetchNeos (Succeeded near_earth_objects) st in
  exists m : entry,
    selected st' = Some m /\ In m (asteroids st') /\ sbdb_raw m = None.
Proof.
  intros Hsel Hne st'.
  assert (S : asteroids st' = merge (map neo_entry (firstn 12 near_earth_objects)) /\
              selected st' = keep_selection (asteroids st') prev).
  { subst st'. unfold fetchNeos.
    destruct near_earth_objects as [| n rest]; [congruence |].
    cbn [firstn map]. unfold updateSelected.
    cbn [asteroids selected setLoading setAsteroids]. now rewrite Hsel. }
  destruct S as [SA SS].
  destruct (keep_selection (asteroids st') prev) as [m |] eqn:K.
  - exists m. split; [exact SS |]. apply keep_selection_member in K.
    split; [exact K |].
    rewrite SA in K. pose proof (merge_plain (firstn 12 near_earth_objects)) as P.
    rewrite Forall_forall in P. now apply P.
  - exfalso. rewrite SA in K. unfold keep_selection, merge, merge_into in K.
    destruct (find _ _); [discriminate |]. discriminate.
Qed.

(** Eros, enriched, is the selection when the first refresh arrives. *)
Lemma refresh_selects_catalog_entry_witness :
  exists m : entry,
    selected (fetchNeos (Succeeded [eros_again])
                (setSelected (enrich (fun _ => EmptyString)
                                (neo_entry eros_again) (mkSbdb None)) initial)) = Some m /\
    name m = "433 Eros" /\ sbdb_raw m = None.
Proof.
  assert (N : [eros_again] <> []) by discriminate.
  destruct (refresh_selects_catalog_entry
              (setSelected (enrich (fun _ => EmptyString)
                              (neo_entry eros_again) (mkSbdb None)) initial)
              _ [eros_again] eq_refl N) as [m [S [_ P]]].
  exists m. split; [exact S |]. split; [| exact P].
  cbv in S. injection S as <-. reflexivity.
Defined.

(** X12. The same answer of the listing endpoint, handled twice, leaves the state
    that handling it once leaves. *)
Theorem fetchNeos_idempotent (r : response (list neo)) (st : State) :
  fetchNeos r (fetchNeos r st) = fetchNeos r st.
Proof.
  unfold fetchNeos. destruct r as [| neos]; [reflexivity |].
  destruct (map neo_entry (firstn 12 neos)) as [| it items] eqn:E; [reflexivity |].
  set (merged := merge (it :: items)).
  unfold updateSelected, setLoading, setAsteroids. cbn [asteroids selected loading textureUrl query].
  f_equal.
  destruct (selected st) as [prev |]; [| reflexivity].
  destruct (keep_selection merged prev) as [m |] eqn:K; [| reflexivity].
  now apply keep_selection_idem in K.
Qed.

End RefreshMore.

(* ------------------------------------------------------------------ *)
(** ** More on enriching the selection *)

Section EnrichMore.
Import Catalog Scene.
Local Open Scope string_scope.

Variable Number_toString : Q -> string.

Lemma or_str_same (s : string) : or_str s s = s.
Proof. unfold or_str. now destruct (Str.nonempty s). Qed.

Lemma or_else_absorb (a b : jsval) : or_else a (or_else a b) = or_else a b.
Proof. unfold or_else. now destruct (truthy a). Qed.

(** X13. Whatever the database answers, the selection keeps the id, the name, the
    designation, the hazard flag, the discovery and the events of the clicked
    entry, and the catalog is not touched; so the viewer shows the same shape
    and the snapshot gets the same file name as for the entry itself. *)
Theorem enrichment_keeps_identity (obj : entry) (r : response sbdb_json) (st : State) :
  let st' := fetchSBDBDetails Number_toString obj r st in
  asteroids st' = asteroids st /\ query st' = query st /\ loading st' = false /\
  (exists e : entry,
      selected st' = Some e /\
      id e = id obj /\ name e = name obj /\ designation e = designation obj /\
      is_potentially_hazardous e = is_potentially_hazardous obj /\
      discovery_date e = discovery_date obj /\ discoverer e = discoverer obj /\
      notable_events e = notable_events obj) /\
  viewer_geom (selected st') = viewer_geom (Some obj) /\
  snapshot_name (selected st') = snapshot_name (Some obj).
Proof.
  cbv zeta.
  assert (S : exists e : entry,
             selected (fetchSBDBDetails Number_toString obj r st) = Some e /\
             id e = id obj /\ name e = name obj /\ designation e = designation obj /\
             is_potentially_hazardous e = is_potentially_hazardous obj /\
             discovery_date e = discovery_date obj /\ discoverer e = discoverer obj /\
             notable_events e = notable_events obj).
  { destruct r as [| json].
    - exists obj. repeat (split; [reflexivity |]). reflexivity.
    - exists (enrich Number_toString obj json). repeat (split; [reflexivity |]). reflexivity. }
  split; [now destruct r |]. split; [now destruct r |]. split; [now destruct r |].
  split; [exact S |].
  destruct S as [e [-> [_ [N _]]]].
  unfold viewer_geom, snapshot_name, display_name. now rewrite N.
Qed.

(** X14. A payload without [phys], or whose diameter, magnitude and albedo are all
    missing, null, zero or empty, changes no field of the entry; the
    selection only gains the payload as [sbdb_raw]. *)
Theorem enrich_without_values (obj : entry) (json : sbdb_json) :
  (phys json = None \/
   exists p : phys_t,
     phys json = Some p /\ truthy (diameter p) = false /\
     truthy (H p) = false /\ truthy (albedo p) = false) ->
  enrich Number_toString obj json =
  mkEntry (id obj) (name obj) (designation obj) (diameter_km obj) (absolute_magnitude_h obj)
          (is_potentially_hazardous obj) (discovery_date obj) (discoverer obj)
          (summary obj) (notable_events obj) (Some json).
Proof.
  intros [E | [p [E [D [M A]]]]]; unfold enrich, or_else; rewrite E; cbn [no_phys diameter H albedo truthy].
  - now rewrite or_str_same.
  - now rewrite D, M, A, or_str_same.
Qed.

End EnrichMore.

(** A diameter of zero counts as no diameter. *)
Lemma enrich_without_values_witness :
  Catalog.diameter_km
    (Catalog.enrich (fun _ => EmptyString) (Catalog.neo_entry Catalog.eros_again)
       (Catalog.mkSbdb (Some (Catalog.mkPhys (Catalog.JNum 0) Catalog.JNull (Catalog.JStr "")))))
  = Catalog.JNum (16840 / 1000).
Proof.
  rewrite (enrich_without_values (fun _ => EmptyString) (Catalog.neo_entry Catalog.eros_again)
             (Catalog.mkSbdb (Some (Catalog.mkPhys (Catalog.JNum 0) Catalog.JNull (Catalog.JStr ""))))).
  - reflexivity.
  - right. exists (Catalog.mkPhys (Catalog.JNum 0) Catalog.JNull (Catalog.JStr "")).
    repeat split.
Defined.

Section EnrichSummary.
Import Catalog Scene.
Local Open Scope string_scope.

Variable Number_toString : Q -> string.

(** X15. A payload with an albedo replaces the summary of the selection by the
    line of the albedo, whatever the summary of the entry was; the diameter
    and the magnitude are replaced by those of the payload that are not
    missing, null, zero or empty. *)
Theorem enrich_with_albedo (obj : entry) (p : phys_t) :
  truthy (albedo p) = true ->
  let e := enrich Number_toString obj (mkSbdb (Some p)) in
  summary e = name obj ++ " — albedo: " ++ ToString Number_toString (albedo p) /\
  diameter_km e = (if truthy (diameter p) then diameter p else diameter_km obj) /\
  absolute_magnitude_h e = (if truthy (H p) then H p else absolute_magnitude_h obj).
Proof.
  intros A. cbv zeta. unfold enrich. cbn [phys summary diameter_km absolute_magnitude_h].
  rewrite A. split; [| split; reflexivity].
  unfold or_str.
  destruct (Str.nonempty (name obj ++ " — albedo: " ++ ToString Number_toString (albedo p))) eqn:N;
    [reflexivity |].
  apply nonempty_false in N. destruct (name obj); discriminate.
Qed.

(** X16. Enriching with the same payload a second time changes nothing more. *)
Theorem enrich_idempotent (obj : entry) (json : sbdb_json) :
  enrich Number_toString (enrich Number_toString obj json) json =
  enrich Number_toString obj json.
Proof.
  unfold enrich. cbn [id name designation diameter_km absolute_magnitude_h
                      is_potentially_hazardous discovery_date discoverer summary
                      notable_events].
  rewrite !or_else_absorb. f_equal.
  destruct (truthy (albedo match phys json with Some p => p | None => no_phys end)).
  - unfold or_str. now destruct (Str.nonempty _).
  - now rewrite !or_str_same.
Qed.

End EnrichSummary.

(** Eros with an albedo of 0.25. *)
Lemma enrich_with_albedo_witness :
  Catalog.summary
    (Catalog.enrich (fun _ => "0.25"%string) (Catalog.neo_entry Catalog.eros_again)
       (Catalog.mkSbdb (Some (Catalog.mkPhys Catalog.JUndefined Catalog.JUndefined
                                (Catalog.JNum 0.25)))))
  = "433 Eros (A898 PA) — albedo: 0.25"%string.
Proof.
  assert (A : Catalog.truthy (Catalog.albedo (Catalog.mkPhys Catalog.JUndefined Catalog.JUndefined
                                                (Catalog.JNum 0.25))) = true) by reflexivity.
  destruct (enrich_with_albedo (fun _ => "0.25"%string) (Catalog.neo_entry Catalog.eros_again)
              _ A) as [S _].
  exact S.
Defined.

(* ------------------------------------------------------------------ *)
(** ** More on searching *)

Section SearchMore.
Import Str Closed Catalog.
Local Open Scope string_scope.

Lemma filtered_member (asteroids : list entry) (query : string) (a : entry) :
  In a (filtered asteroids query) <->
  In a asteroids /\
  (occurs_in (toLowerCase (trim query)) (toLowerCase (name a)) \/
   occurs_in (toLowerCase (trim query)) (toLowerCase (designation a)) \/
   occurs_in (toLowerCase (trim query)) (toLowerCase (id a))).
Proof.
  unfold filtered.
  destruct (nonempty (toLowerCase (trim query))) eqn:N; cbn [negb].
  - rewrite filter_In, matches_occurs; [tauto |].
    intros E. rewrite E in N. discriminate.
  - apply nonempty_false in N. rewrite N.
    split; [intros I; split; [exact I |] | tauto].
    left. now exists "", (toLowerCase (name a)).
Qed.

Lemma append_assoc (a b c : string) : (a ++ b) ++ c = a ++ b ++ c.
Proof. induction a as [| x a IH]; cbn; [reflexivity | now rewrite IH]. Qed.

Lemma occurs_in_trans (a b c : string) : occurs_in a b -> occurs_in b c -> occurs_in a c.
Proof.
  intros [p1 [q1 ->]] [p2 [q2 ->]]. exists (p2 ++ p1), (q1 ++ q2).
  now rewrite !append_assoc.
Qed.

Lemma toLowerCase_append (a b : string) :
  toLowerCase (a ++ b) = toLowerCase a ++ toLowerCase b.
Proof. induction a as [| x a IH]; cbn; [reflexivity | now rewrite IH]. Qed.

Lemma occurs_in_lower (a b : string) :
  occurs_in a b -> occurs_in (toLowerCase a) (toLowerCase b).
Proof.
  intros [p [q ->]]. exists (toLowerCase p), (toLowerCase q).
  now rewrite !toLowerCase_append.
Qed.

Lemma trimStart_suffix (s : string) : exists ws, s = ws ++ trimStart s.
Proof.
  induction s as [| c s [ws IH]]; cbn [trimStart]; [now exists "" |].
  destruct (is_space c).
  - exists (String c ws). cbn. now rewrite <- IH.
  - now exists "".
Qed.

Lemma trimEnd_prefix (s : string) : exists ws, s = trimEnd s ++ ws.
Proof.
  induction s as [| c s [ws IH]]; cbn [trimEnd]; [now exists "" |].
  destruct (trimEnd s) as [| d t] eqn:T.
  - destruct (is_space c).
    + exists (String c s). reflexivity.
    + exists s. reflexivity.
  - exists ws. cbn. cbn in IH. now rewrite <- IH.
Qed.

Lemma trim_occurs (s : string) : occurs_in (trim s) s.
Proof.
  unfold trim. destruct (trimStart_suffix s) as [pre E].
  destruct (trimEnd_prefix (trimStart s)) as [post E'].
  exists pre, post. now rewrite <- E', <- E.
Qed.

(** X17. The entries listed are entries of the catalog, in the order of the
    catalog; a query that is empty or all white space lists the whole
    catalog; and a query that holds another one lists no entry that the other
    one does not list: typing more never brings an entry back. *)
Theorem filtered_narrows (asteroids : list entry) (shorter longer : string) :
  occurs_in (toLowerCase (trim shorter)) (toLowerCase (trim longer)) ->
  incl (filtered asteroids longer) (filtered asteroids shorter) /\
  incl (filtered asteroids longer) asteroids /\
  (List.length (filtered asteroids longer) <= List.length (filtered asteroids shorter))%nat /\
  (trim shorter = "" -> filtered asteroids shorter = asteroids).
Proof.
  intros O.
  assert (I : incl (filtered asteroids longer) (filtered asteroids shorter)).
  { intros a Ha. apply filtered_member in Ha. apply filtered_member.
    destruct Ha as [Hin [H1 | [H2 | H3]]]; split; try exact Hin;
      [left | right; left | right; right]; eapply occurs_in_trans; eassumption. }
  split; [exact I |]. split; [| split].
  - intros a Ha. now apply filtered_member in Ha.
  - unfold filtered in *.
    destruct (nonempty (toLowerCase (trim shorter))) eqn:Ns; cbn [negb] in *.
    + destruct (nonempty (toLowerCase (trim longer))) eqn:Nl; cbn [negb] in *.
      * clear I. induction asteroids as [| a l IH]; cbn [filter]; [lia |].
        destruct (matches (toLowerCase (trim longer)) a) eqn:Ml.
        -- assert (Ms : matches (toLowerCase (trim shorter)) a = true).
           { apply matches_occurs; [intros E; rewrite E in Ns; discriminate |].
             apply matches_occurs in Ml; [| intros E; rewrite E in Nl; discriminate].
             destruct Ml as [H1 | [H2 | H3]]; [left | right; left | right; right];
               eapply occurs_in_trans; eassumption. }
           rewrite Ms. cbn [List.length]. lia.
        -- destruct (matches (toLowerCase (trim shorter)) a); cbn [List.length]; lia.
      * apply nonempty_false in Nl. rewrite Nl in O.
        destruct O as [p [q E]]. destruct p; [| discriminate]. cbn in E.
        destruct (toLowerCase (trim shorter)); [discriminate | discriminate].
    + destruct (nonempty (toLowerCase (trim longer))); cbn [negb];
        [apply filter_length_le | lia].
  - intros E. unfold filtered. now rewrite E.
Qed.

(** The query "er" and the query "eros". *)
Lemma filtered_narrows_witness :
  occurs_in (toLowerCase (trim "er")) (toLowerCase (trim "eros")) /\
  incl (filtered SAMPLE_ASTEROIDS "eros") (filtered SAMPLE_ASTEROIDS "er").
Proof.
  assert (O : occurs_in (toLowerCase (trim "er")) (toLowerCase (trim "eros")))
    by (exists "", "os"; reflexivity).
  split; [exact O |].
  destruct (filtered_narrows SAMPLE_ASTEROIDS "er" "eros" O) as [I _]. exact I.
Defined.

Lemma trimStart_spaces (n : nat) (s : string) :
  trimStart (string_of_list_ascii (repeat " "%char n) ++ s) = trimStart s.
Proof. induction n as [| n IH]; cbn; [reflexivity | exact IH]. Qed.

Lemma trimEnd_spaces (m : nat) (s : string) :
  trimEnd (s ++ string_of_list_ascii (repeat " "%char m)) = trimEnd s.
Proof.
  induction s as [| c s IH].
  - cbn [append trimEnd]. induction m as [| m IHm]; cbn; [reflexivity |].
    cbn in IHm. now rewrite IHm.
  - cbn [append trimEnd]. now rewrite IH.
Qed.

Lemma trim_spaces (n m : nat) (s : string) :
  trim (string_of_list_ascii (repeat " "%char n) ++ s ++
        string_of_list_ascii (repeat " "%char m)) = trim s.
Proof.
  unfold trim. rewrite trimStart_spaces.
  induction s as [| c s IH].
  - cbn [append]. rewrite <- (trimStart_spaces m "") at 1.
    induction m as [| m IHm]; cbn; [reflexivity |]. cbn in IHm. exact IHm.
  - cbn [append trimStart]. destruct (is_space c); [exact IH |].
    apply (trimEnd_spaces m (String c s)).
Qed.

(** X18. An entry of the catalog is listed when its own name, its own designation
    or its own id is typed, also with blanks before and after it. *)
Theorem filtered_finds_own_name (asteroids : list entry) (a : entry) (n m : nat) :
  In a asteroids ->
  let pad := fun k : nat => string_of_list_ascii (repeat " "%char k) in
  In a (filtered asteroids (pad n ++ name a ++ pad m)) /\
  In a (filtered asteroids (pad n ++ designation a ++ pad m)) /\
  In a (filtered asteroids (pad n ++ id a ++ pad m)).
Proof.
  intros Ha pad.
  assert (G : forall s, occurs_in (toLowerCase (trim (pad n ++ s ++ pad m))) (toLowerCase s)).
  { intros s. subst pad. cbv beta. rewrite trim_spaces. apply occurs_in_lower, trim_occurs. }
  split; [| split].
  - apply filtered_member. split; [exact Ha | left; apply G].
  - apply filtered_member. split; [exact Ha | right; left; apply G].
  - apply filtered_member. split; [exact Ha | right; right; apply G].
Qed.

(** Eros, found by its name. *)
Lemma filtered_finds_own_name_witness :
  exists a : entry,
    In a SAMPLE_ASTEROIDS /\ name a = "433 Eros" /\ In a (filtered SAMPLE_ASTEROIDS (name a)).
Proof.
  exists (nth 8 SAMPLE_ASTEROIDS (neo_entry eros_again)).
  assert (Ha : In (nth 8 SAMPLE_ASTEROIDS (neo_entry eros_again)) SAMPLE_ASTEROIDS)
    by (apply nth_In; cbn; lia).
  split; [exact Ha |]. split; [reflexivity |].
  destruct (filtered_finds_own_name SAMPLE_ASTEROIDS _ 0 0 Ha) as [I _].
  cbv zeta beta in I. cbn [repeat string_of_list_ascii append] in I.
  replace (name (nth 8 SAMPLE_ASTEROIDS (neo_entry eros_again)) ++ "")
    with (name (nth 8 SAMPLE_ASTEROIDS (neo_entry eros_again))) in I by reflexivity.
  exact I.
Defined.

End SearchMore.

(* ------------------------------------------------------------------ *)
(** ** What every state of the component satisfies *)

Section Invariant.
Import Catalog App.

Variable Number_toString : Q -> string.

Lemma merge_added_length (near_earth_objects : list neo) :
  exists added : list entry,
    merge (map neo_entry (firstn 12 near_earth_objects)) = SAMPLE_ASTEROIDS ++ added /\
    (List.length added <= 12)%nat.
Proof.
  unfold merge, merge_into. eexists. split; [reflexivity |].
  eapply Nat.le_trans; [apply filter_length_le |].
  rewrite length_map. apply firstn_le_length.
Qed.

Lemma handle_sound (st : State) (e : event) : sound st -> sound (handle Number_toString st e).
Proof.
  intros [S [P F]]. destruct e as [r | obj r | q | u]; cbn [handle].
  - unfold fetchNeos. destruct r as [| neos]; [now repeat split |].
    destruct (map neo_entry (firstn 12 neos)) as [| it items] eqn:E; [now repeat split |].
    rewrite <- E. unfold sound, updateSelected.
    cbn [asteroids selected setLoading setAsteroids].
    split; [| split].
    + destruct (selected st) as [prev |]; [| congruence].
      unfold keep_selection, merge, merge_into.
      destruct (find _ _); discriminate.
    + apply merge_added_length.
    + apply merge_plain.
  - unfold fetchSBDBDetails. destruct r; now repeat split.
  - now repeat split.
  - now repeat split.
Qed.

(** X19. However the answers of the two endpoints, the clicks and the typing
    follow one another, the component always has a selection, its catalog
    always begins with the ten embedded entries in their order and holds at
    most twelve more, and no entry of the catalog ever holds a payload of the
    database: enrichment changes the selection alone. *)
Theorem run_invariant (events : list event) :
  let st := run Number_toString events initial in
  selected st <> None /\
  (exists added : list entry,
      asteroids st = SAMPLE_ASTEROIDS ++ added /\ (List.length added <= 12)%nat) /\
  firstn 10 (asteroids st) = SAMPLE_ASTEROIDS /\
  (List.length (asteroids st) <= 22)%nat /\
  Forall (fun e => sbdb_raw e = None) (asteroids st).
Proof.
  cbv zeta.
  assert (I : sound (run Number_toString events initial)).
  { unfold run.
    assert (G : forall st, sound st -> sound (fold_left (handle Number_toString) events st)).
    { induction events as [| e events IH]; intros st Hs; cbn [fold_left]; [exact Hs |].
      apply IH, handle_sound, Hs. }
    apply G. split; [discriminate |]. split.
    - exists []. split; [now rewrite app_nil_r | cbn; lia].
    - apply SAMPLE_ASTEROIDS_plain. }
  destruct I as [S [[added [A L]] F]].
  split; [exact S |]. split; [now exists added |]. split; [| split; [| exact F]].
  - rewrite A. apply (firstn_app_2 0 SAMPLE_ASTEROIDS).
  - rewrite A, length_app. change (List.length SAMPLE_ASTEROIDS) with 10%nat. lia.
Qed.

End Invariant.

(* ------------------------------------------------------------------ *)
(** ** Inputs at the edge *)

Section Edges.
Import Rng Geometry Closed Catalog.

(** X20. At intensity 0 the generator returns the positions of the sphere
    untouched, whatever the seed; at radius 0 it returns every vertex at the
    centre, whatever the seed and the intensity: neither input is clamped. *)
Theorem createBumpyGeometry_degenerate (radius : R) (segments : Z) (intensity : R)
    (seed : Z) (h : Heap) :
  position (fst (createBumpyGeometry radius segments 0 seed h)) =
    position (SphereGeometry radius (Z.max 32 segments) (Z.max 16 (segments / 2))) /\
  Forall (fun v => v = zero3)
         (position (fst (createBumpyGeometry 0 segments intensity seed h))).
Proof.
  split.
  - rewrite createBumpyGeometry_positions. unfold SphereGeometry. cbn [position].
    fold (widthSegments segments) (heightSegments segments).
    rewrite <- (map_id (sphere_vertices radius _ _)) at 2.
    apply map_ext. intros p. apply displaced_zero_intensity.
  - rewrite createBumpyGeometry_positions. apply Forall_forall. intros v Hv.
    rewrite in_map_iff in Hv. destruct Hv as [p [<- Hp]].
    apply in_sphere_vertices in Hp. destruct Hp as [iy [ix [_ [_ ->]]]].
    unfold displaced, sphere_vertex, zero3. cbn [vx vy vz]. f_equal; ring.
Qed.

Local Open Scope string_scope.


End Edges.
